(** * Project Chrono: vehicle assembly, asset levels and the SynChrono highway demo

    A shallow embedding of
    - [src/chrono/assets/ChAssetLevel.h]                       (module [AssetLevel]),
    - [src/chrono_models/vehicle/citybus/CityBus.cpp]          (module [Bus]),
    - [src/demos/synchrono/demo_highway/demo_SYN_highway.cpp]  (module [Highway]),
    together with the parts of the ACC driver and of the tire sub-stepping
    that the three files only call (modules [Acc] and [SubStep]).

    Part I holds the model, one module for each of the five; Part II holds
    what is proved about it, in a module of facts for each. The modules
    [LevelBuild], [BusMore] and [Demo] add what the three files have besides:
    levels filled by repeated [AddAsset], the configuration of the bus and
    its loops over the tires, and the vehicle and driver that the demo sets
    up for a rank.

    Conventions.
    - A C++ [double] is a binary64 primitive float ([PrimFloat.float]).
    - A raw or shared pointer is an [option]: [None] is the null pointer.
    - A method that can dereference a null pointer or read a member that was
      never assigned returns an [option]: [None] is "behaviour undefined".
    - A method of a class is a function from the object before the call to
      the object after it (and the value returned, when there is one).
    - A class whose code is elsewhere in the library is a type with the
      operations that are called on it, about which nothing is assumed. *)

From Stdlib Require Import ZArith NArith QArith Qround Qminmax Lia Lqa.
From Stdlib Require Import Floats.PrimFloat.
From Stdlib Require Import Strings.String.
From stdpp Require Import base option list.

Set Default Proof Using "Type".

(** ** C++ doubles *)

Module Double.

Definition double : Set := float.

(** [a > b] and [a < b] on doubles: false as soon as one side is a NaN. *)
Definition gt (a b : double) : bool := PrimFloat.ltb b a.
Definition lt (a b : double) : bool := PrimFloat.ltb a b.

(** [std::abs] on doubles. *)
Definition fabs (a : double) : double := PrimFloat.abs a.

End Double.

Import Double.

(** * Part I: the model *)

(** ** ChAssetLevel *)

Module AssetLevel.

Section Level.

(** [ChAsset] objects and [ChFrame<>] values are opaque here. *)
Context {ChAsset ChFrame : Type}.

(** [std::shared_ptr<ChAsset>]: empty, or pointing to an asset. *)
Definition shared_ptr : Type := option ChAsset.

Definition null_ptr : shared_ptr := None.

Record ChAssetLevel : Type := mkLevel {
  levelframe : ChFrame;
  assets : list shared_ptr
}.

(** [ChAssetLevel() : levelframe(CSYSNORM) {}] *)
Definition new_ChAssetLevel (CSYSNORM : ChFrame) : ChAssetLevel :=
  {| levelframe := CSYSNORM; assets := [] |}.

(** [std::vector::size]. *)
Definition size (v : list shared_ptr) : N := N.of_nat (length v).

(** [std::vector::operator[]]: unchecked, undefined past the end. *)
Definition index (v : list shared_ptr) (num : N) : option shared_ptr :=
  v !! N.to_nat num.

(** [GetFrame] and [GetAssets] hand out references to the members. *)
Definition GetFrame (lv : ChAssetLevel) : ChFrame := levelframe lv.
Definition GetAssets (lv : ChAssetLevel) : list shared_ptr := assets lv.

(** [GetAssetN(unsigned int num)]: [num] is unsigned, so a natural number,
    and is compared with [assets.size()] in the wider type of the latter.
    The method is not [const], so the level after the call is returned next
    to the pointer. *)
Definition GetAssetN (num : N) (lv : ChAssetLevel)
  : option (shared_ptr * ChAssetLevel) :=
  if (num <? size (assets lv))%N
  then p ← index (assets lv) num; Some (p, lv)
  else Some (null_ptr, lv).

(** [AddAsset(masset)]: [assets.push_back(masset)]. *)
Definition AddAsset (masset : shared_ptr) (lv : ChAssetLevel) : ChAssetLevel :=
  {| levelframe := levelframe lv; assets := assets lv ++ [masset] |}.

End Level.

(** A level of three slots over assets named by numbers; the middle slot
    holds an empty pointer. *)
Definition demo_level : @ChAssetLevel nat unit :=
  AddAsset (Some 7%nat) (AddAsset None (AddAsset (Some 5%nat) (new_ChAssetLevel tt))).

End AssetLevel.

(** ** CityBus: the vehicle assembly *)

Module Bus.

(** Enumerations of the vehicle library, declared in headers outside the
    sources. [CityBus.cpp] names [NSC], [NONE], [RIGID], [RIGID_MESH],
    [TMEASY], [LEFT] and [RIGHT]; the other tire models are those that the
    [switch] of [Initialize] leaves to its [default]. *)
Inductive ContactMethod : Set := NSC | SMC.
Inductive ChassisCollisionType : Set := NONE | PRIMITIVES | MESH.
Inductive TireModelType : Set :=
  | RIGID | RIGID_MESH | PACEJKA | LUGRE | FIALA | ANCF
  | REISSNER | FEA | PAC89 | TMEASY | PAC02.
Inductive VehicleSide : Set := LEFT | RIGHT.

Definition side_index (s : VehicleSide) : nat :=
  match s with LEFT => 0 | RIGHT => 1 end.

Record ChVector : Set := mkVector { vx : double; vy : double; vz : double }.
Record ChQuaternion : Set :=
  mkQuaternion { e0 : double; e1 : double; e2 : double; e3 : double }.
Record ChCoordsys : Set := mkCoordsys { pos : ChVector; rot : ChQuaternion }.

Definition QUNIT : ChQuaternion := mkQuaternion 1%float 0%float 0%float 0%float.

(** The objects the assembly is built from. Their classes are not part of
    [CityBus.cpp]; the assembly only creates them and calls their methods. *)
Class Parts : Type := {
  ChSystem : Type;
  ChTerrain : Type;
  (** a [CityBus_Vehicle] without the tires on its wheels: chassis body,
      suspensions, driveline, brakes, integration step *)
  Chassis : Type;
  (** a [CityBus_SimpleMapPowertrain] *)
  Powertrain : Type;
  (** a [CityBus_RigidTire] or [CityBus_TMeasyTire] *)
  Tire : Type
}.

Section Assembly.

Context `{Parts}.

(** Modelled from the spec: the assembly "owns chassis, axles/wheels, the
    four TireSubsystems"; the classes of the vehicle, its axles and its
    wheels are in the vehicle library, not among the sources. A wheel holds
    a shared pointer to its tire, empty until a tire is attached; an axle
    holds its wheels, [LEFT] first; the vehicle holds its axles, front
    first. *)
Record ChWheel : Type := mkWheel { m_tire : option Tire }.
Record ChAxle : Type := mkAxle { m_wheels : list ChWheel }.
Record Vehicle : Type := mkVehicle { body : Chassis; m_axles : list ChAxle }.

(** The methods of those classes that [CityBus.cpp] calls. *)
Class Collaborators : Type := {
  (** [CityBus_Vehicle(system, fixed, chassis_collision_type)] *)
  new_Chassis_in : ChSystem → bool → ChassisCollisionType → Chassis;
  (** [CityBus_Vehicle(fixed, contact_method, chassis_collision_type)] *)
  new_Chassis : bool → ContactMethod → ChassisCollisionType → Chassis;
  SetInitWheelAngVel : list double → Chassis → Chassis;
  Vehicle_Initialize : ChCoordsys → double → Chassis → Chassis;
  Vehicle_SetStepsize : double → Chassis → Chassis;
  (** [GetChassis()->SetAerodynamicDrag(Cd, area, air_density)] *)
  Chassis_SetAerodynamicDrag : double → double → double → Chassis → Chassis;
  GetDriveshaftSpeed : Vehicle → double;
  GetVehicleMass : Vehicle → double;
  (** [Synchronize(time, steering, braking, powertrain_torque, terrain)] *)
  Vehicle_Synchronize :
    double → double → double → double → ChTerrain → Vehicle → Vehicle;
  Vehicle_Advance : double → Vehicle → Vehicle;
  new_SimpleMapPowertrain : string → Powertrain;
  (** [Initialize(chassis_body, driveshaft)]: both arguments point into the
      vehicle, which the call may change. *)
  Powertrain_Initialize : Chassis → Powertrain → Chassis * Powertrain;
  GetOutputTorque : Powertrain → double;
  (** [Synchronize(time, throttle, driveshaft_speed)] *)
  Powertrain_Synchronize : double → double → double → Powertrain → Powertrain;
  Powertrain_Advance : double → Powertrain → Powertrain;
  new_RigidTire : string → bool → Tire;
  new_TMeasyTire : string → Tire;
  (** [tire->Initialize(wheel)] *)
  Tire_Initialize : Tire → Tire;
  Tire_SetStepsize : double → Tire → Tire;
  ReportMass : Tire → double
}.

Context `{Collaborators}.

(** Modelled from the spec: the "four wheel states" of the data model; the
    class [CityBus_Vehicle] is not among the sources. Its two axles, two
    wheels each, carry no tire when it is constructed. *)
Definition bare_axles : list ChAxle :=
  [ mkAxle [mkWheel None; mkWheel None]; mkAxle [mkWheel None; mkWheel None] ].

(** [m_vehicle->GetAxle(i)->m_wheels[side]] *)
Definition GetWheel (i : nat) (side : VehicleSide) (v : Vehicle) : option ChWheel :=
  axle ← m_axles v !! i; m_wheels axle !! side_index side.

(** [wheel->GetTire()] for that wheel: [None] when there is no such wheel,
    [Some None] when the wheel has no tire. *)
Definition GetTire (i : nat) (side : VehicleSide) (v : Vehicle) : option (option Tire) :=
  m_tire <$> GetWheel i side v.

(** Modelled from the spec: the assembly owns "the four TireSubsystems",
    one on each wheel; the method of the vehicle base class is not among the
    sources. [m_vehicle->InitializeTire(tire, m_vehicle->GetAxle(i)->m_wheels[side])]
    attaches the tire to the wheel and initializes it there. *)
Definition InitializeTire (tire : Tire) (i : nat) (side : VehicleSide) (v : Vehicle)
  : option Vehicle :=
  axle ← m_axles v !! i;
  _ ← m_wheels axle !! side_index side;
  let wheel := mkWheel (Some (Tire_Initialize tire)) in
  let axle' := mkAxle (<[side_index side := wheel]> (m_wheels axle)) in
  Some (mkVehicle (body v) (<[i := axle']> (m_axles v))).

(** The tires of the vehicle in the order the loops over [GetAxles()] and
    [GetWheels()] visit them. *)
Definition tires (v : Vehicle) : list (option Tire) :=
  a ← m_axles v; m_tire <$> m_wheels a.

Record CityBus : Type := mkCityBus {
  m_system : option ChSystem;
  m_vehicle : option Vehicle;
  m_powertrain : option Powertrain;
  m_contactMethod : ContactMethod;
  m_chassisCollisionType : ChassisCollisionType;
  m_fixed : bool;
  m_tireType : TireModelType;
  m_vehicle_step_size : double;
  m_tire_step_size : double;
  m_initFwdVel : double;
  m_initPos : ChCoordsys;
  m_initOmega : list double;
  m_apply_drag : bool;
  (** the next four members are in no constructor's initializer list:
      [None] until something is assigned to them *)
  m_Cd : option double;
  m_area : option double;
  m_air_density : option double;
  m_tire_mass : option double
}.

(** [CityBus::CityBus()] *)
Definition new_CityBus : CityBus :=
  {| m_system := None; m_vehicle := None; m_powertrain := None;
     m_contactMethod := NSC; m_chassisCollisionType := NONE;
     m_fixed := false; m_tireType := TMEASY;
     m_vehicle_step_size := (-1)%float; m_tire_step_size := (-1)%float;
     m_initFwdVel := 0%float;
     m_initPos := mkCoordsys (mkVector 0%float 0%float 1%float) QUNIT;
     m_initOmega := [0; 0; 0; 0]%float;
     m_apply_drag := false;
     m_Cd := None; m_area := None; m_air_density := None;
     m_tire_mass := None |}.

(** [CityBus::CityBus(ChSystem* system)] *)
Definition new_CityBus_in (system : option ChSystem) : CityBus :=
  {| m_system := system; m_vehicle := None; m_powertrain := None;
     m_contactMethod := NSC; m_chassisCollisionType := NONE;
     m_fixed := false; m_tireType := RIGID;
     m_vehicle_step_size := (-1)%float; m_tire_step_size := (-1)%float;
     m_initFwdVel := 0%float;
     m_initPos := mkCoordsys (mkVector 0%float 0%float 1%float) QUNIT;
     m_initOmega := [0; 0; 0; 0]%float;
     m_apply_drag := false;
     m_Cd := None; m_area := None; m_air_density := None;
     m_tire_mass := None |}.

(** [CityBus::SetAerodynamicDrag] *)
Definition SetAerodynamicDrag (Cd area air_density : double) (b : CityBus) : CityBus :=
  {| m_system := m_system b; m_vehicle := m_vehicle b;
     m_powertrain := m_powertrain b;
     m_contactMethod := m_contactMethod b;
     m_chassisCollisionType := m_chassisCollisionType b;
     m_fixed := m_fixed b; m_tireType := m_tireType b;
     m_vehicle_step_size := m_vehicle_step_size b;
     m_tire_step_size := m_tire_step_size b;
     m_initFwdVel := m_initFwdVel b; m_initPos := m_initPos b;
     m_initOmega := m_initOmega b;
     m_apply_drag := true;
     m_Cd := Some Cd; m_area := Some area; m_air_density := Some air_density;
     m_tire_mass := m_tire_mass b |}.

(** Modelled from the spec: the setters of the step sizes and of the tire
    model are declared in [CityBus.h], which is not among the sources; the
    data model of the spec has the step sizes "configurable" and "unset" by
    default, so each setter stores its argument in the member that
    [Initialize] reads. *)
Definition SetVehicleStepSize (step_size : double) (b : CityBus) : CityBus :=
  {| m_system := m_system b; m_vehicle := m_vehicle b;
     m_powertrain := m_powertrain b;
     m_contactMethod := m_contactMethod b;
     m_chassisCollisionType := m_chassisCollisionType b;
     m_fixed := m_fixed b; m_tireType := m_tireType b;
     m_vehicle_step_size := step_size;
     m_tire_step_size := m_tire_step_size b;
     m_initFwdVel := m_initFwdVel b; m_initPos := m_initPos b;
     m_initOmega := m_initOmega b; m_apply_drag := m_apply_drag b;
     m_Cd := m_Cd b; m_area := m_area b; m_air_density := m_air_density b;
     m_tire_mass := m_tire_mass b |}.

(** Modelled from the spec: the setter of [tireStep], declared in
    [CityBus.h], see [SetVehicleStepSize]. *)
Definition SetTireStepSize (step_size : double) (b : CityBus) : CityBus :=
  {| m_system := m_system b; m_vehicle := m_vehicle b;
     m_powertrain := m_powertrain b;
     m_contactMethod := m_contactMethod b;
     m_chassisCollisionType := m_chassisCollisionType b;
     m_fixed := m_fixed b; m_tireType := m_tireType b;
     m_vehicle_step_size := m_vehicle_step_size b;
     m_tire_step_size := step_size;
     m_initFwdVel := m_initFwdVel b; m_initPos := m_initPos b;
     m_initOmega := m_initOmega b; m_apply_drag := m_apply_drag b;
     m_Cd := m_Cd b; m_area := m_area b; m_air_density := m_air_density b;
     m_tire_mass := m_tire_mass b |}.

(** Modelled from the spec: the setter of the tire model on which
    [Initialize] switches, declared in [CityBus.h], see
    [SetVehicleStepSize]. *)
Definition SetTireType (val : TireModelType) (b : CityBus) : CityBus :=
  {| m_system := m_system b; m_vehicle := m_vehicle b;
     m_powertrain := m_powertrain b;
     m_contactMethod := m_contactMethod b;
     m_chassisCollisionType := m_chassisCollisionType b;
     m_fixed := m_fixed b; m_tireType := val;
     m_vehicle_step_size := m_vehicle_step_size b;
     m_tire_step_size := m_tire_step_size b;
     m_initFwdVel := m_initFwdVel b; m_initPos := m_initPos b;
     m_initOmega := m_initOmega b; m_apply_drag := m_apply_drag b;
     m_Cd := m_Cd b; m_area := m_area b; m_air_density := m_air_density b;
     m_tire_mass := m_tire_mass b |}.

(** The assembly with its three mutable members replaced. *)
Definition with_subsystems
    (v : Vehicle) (p : Powertrain) (tire_mass : option double) (b : CityBus) : CityBus :=
  {| m_system := m_system b; m_vehicle := Some v; m_powertrain := Some p;
     m_contactMethod := m_contactMethod b;
     m_chassisCollisionType := m_chassisCollisionType b;
     m_fixed := m_fixed b; m_tireType := m_tireType b;
     m_vehicle_step_size := m_vehicle_step_size b;
     m_tire_step_size := m_tire_step_size b;
     m_initFwdVel := m_initFwdVel b; m_initPos := m_initPos b;
     m_initOmega := m_initOmega b; m_apply_drag := m_apply_drag b;
     m_Cd := m_Cd b; m_area := m_area b; m_air_density := m_air_density b;
     m_tire_mass := tire_mass |}.

(** *** [CityBus::Initialize], block by block *)

(** "Create and initialize the CityBus vehicle": the constructor chosen by
    [m_system], then [SetInitWheelAngVel] and [Initialize]. *)
Definition create_vehicle (b : CityBus) : Chassis :=
  let vehicle :=
    match m_system b with
    | Some system => new_Chassis_in system (m_fixed b) (m_chassisCollisionType b)
    | None => new_Chassis (m_fixed b) (m_contactMethod b) (m_chassisCollisionType b)
    end in
  Vehicle_Initialize (m_initPos b) (m_initFwdVel b)
    (SetInitWheelAngVel (m_initOmega b) vehicle).

(** [if (m_vehicle_step_size > 0) m_vehicle->SetStepsize(m_vehicle_step_size);] *)
Definition apply_vehicle_step (b : CityBus) (vehicle : Chassis) : Chassis :=
  if gt (m_vehicle_step_size b) 0%float
  then Vehicle_SetStepsize (m_vehicle_step_size b) vehicle
  else vehicle.

(** "If specified, enable aerodynamic drag". *)
Definition apply_drag (b : CityBus) (vehicle : Chassis) : option Chassis :=
  if m_apply_drag b
  then Cd ← m_Cd b; area ← m_area b; air_density ← m_air_density b;
       Some (Chassis_SetAerodynamicDrag Cd area air_density vehicle)
  else Some vehicle.

(** "Create and initialize the powertrain system". *)
Definition create_powertrain (vehicle : Chassis) : Chassis * Powertrain :=
  Powertrain_Initialize vehicle (new_SimpleMapPowertrain "Powertrain"%string).

(** The four [InitializeTire] calls of a [case], followed by
    [m_tire_mass = tire_FL->ReportMass()]: [tire_FL] points to the tire that
    is by then on the front left wheel. *)
Definition attach_tires (tire_FL tire_FR tire_RL tire_RR : Tire) (v : Vehicle)
  : option (Vehicle * double) :=
  v ← InitializeTire tire_FL 0 LEFT v;
  v ← InitializeTire tire_FR 0 RIGHT v;
  v ← InitializeTire tire_RL 1 LEFT v;
  v ← InitializeTire tire_RR 1 RIGHT v;
  tire ← GetTire 0 LEFT v;
  tire ← tire;
  Some (v, ReportMass tire).

Definition is_RIGID_MESH (t : TireModelType) : bool :=
  match t with RIGID_MESH => true | _ => false end.

(** "Create the tires and set parameters depending on type": the [switch]
    on [m_tireType]. The [default] case assigns nothing to [m_tire_mass]. *)
Definition create_tires (b : CityBus) (v : Vehicle) : option (Vehicle * option double) :=
  match m_tireType b with
  | RIGID_MESH | RIGID =>
      let use_mesh := is_RIGID_MESH (m_tireType b) in
      '(v, mass) ← attach_tires
          (new_RigidTire "FL"%string use_mesh) (new_RigidTire "FR"%string use_mesh)
          (new_RigidTire "RL"%string use_mesh) (new_RigidTire "RR"%string use_mesh) v;
      Some (v, Some mass)
  | TMEASY =>
      '(v, mass) ← attach_tires
          (new_TMeasyTire "FL"%string) (new_TMeasyTire "FR"%string)
          (new_TMeasyTire "RL"%string) (new_TMeasyTire "RR"%string) v;
      Some (v, Some mass)
  | _ => Some (v, m_tire_mass b)
  end.

(** The body of the loop over the wheels:
    [if (m_tire_step_size > 0) wheel->GetTire()->SetStepsize(m_tire_step_size);] *)
Definition step_wheel (b : CityBus) (wheel : ChWheel) : option ChWheel :=
  if gt (m_tire_step_size b) 0%float
  then tire ← m_tire wheel;
       Some (mkWheel (Some (Tire_SetStepsize (m_tire_step_size b) tire)))
  else Some wheel.

(** The two nested loops over [GetAxles()] and [GetWheels()]. *)
Definition apply_tire_step (b : CityBus) (v : Vehicle) : option Vehicle :=
  axles ← mapM (λ axle, mkAxle <$> mapM (step_wheel b) (m_wheels axle)) (m_axles v);
  Some (mkVehicle (body v) axles).

(** [CityBus::Initialize] *)
Definition Initialize (b : CityBus) : option CityBus :=
  let vehicle := apply_vehicle_step b (create_vehicle b) in
  vehicle ← apply_drag b vehicle;
  let '(vehicle, powertrain) := create_powertrain vehicle in
  '(v, tire_mass) ← create_tires b (mkVehicle vehicle bare_axles);
  v ← apply_tire_step b v;
  Some (with_subsystems v powertrain tire_mass b).

(** [CityBus::Synchronize] *)
Definition Synchronize
    (time steering_input braking_input throttle_input : double)
    (terrain : ChTerrain) (b : CityBus) : option CityBus :=
  powertrain ← m_powertrain b;
  let powertrain_torque := GetOutputTorque powertrain in
  v ← m_vehicle b;
  let driveshaft_speed := GetDriveshaftSpeed v in
  let powertrain := Powertrain_Synchronize time throttle_input driveshaft_speed powertrain in
  let v := Vehicle_Synchronize time steering_input braking_input powertrain_torque terrain v in
  Some (with_subsystems v powertrain (m_tire_mass b) b).

(** [CityBus::Advance] *)
Definition Advance (step : double) (b : CityBus) : option CityBus :=
  powertrain ← m_powertrain b;
  let powertrain := Powertrain_Advance step powertrain in
  v ← m_vehicle b;
  let v := Vehicle_Advance step v in
  Some (with_subsystems v powertrain (m_tire_mass b) b).

(** [CityBus::GetTotalMass() const] *)
Definition GetTotalMass (b : CityBus) : option double :=
  v ← m_vehicle b;
  tire_mass ← m_tire_mass b;
  Some (GetVehicleMass v + 4 * tire_mass)%float.

(** *** Calls from outside *)

(** The two calls a driver loop makes on the assembly in each tick. *)
Inductive Call : Type :=
  | CallSynchronize (time steering braking throttle : double) (terrain : ChTerrain)
  | CallAdvance (step : double).

Definition call (c : Call) (b : CityBus) : option CityBus :=
  match c with
  | CallSynchronize time steering braking throttle terrain =>
      Synchronize time steering braking throttle terrain b
  | CallAdvance step => Advance step b
  end.

(** A sequence of calls, first call first. *)
Fixpoint run (cs : list Call) (b : CityBus) : option CityBus :=
  match cs with
  | [] => Some b
  | c :: cs => b ← call c b; run cs b
  end.

(** Whether a sequence of calls contains an [Advance] that no [Synchronize]
    precedes in its tick; [synced] tells whether [Synchronize] was called
    since the last [Advance]. *)
Fixpoint advance_before_synchronize (synced : bool) (cs : list Call) : bool :=
  match cs with
  | [] => false
  | CallSynchronize _ _ _ _ _ :: cs => advance_before_synchronize true cs
  | CallAdvance _ :: cs => negb synced || advance_before_synchronize false cs
  end.

(** An assembly whose vehicle and powertrain exist. *)
Definition assembled (b : CityBus) : Prop :=
  is_Some (m_vehicle b) ∧ is_Some (m_powertrain b).

(** The tire models for which the [switch] of [Initialize] has a [case]. *)
Definition has_tire_case (t : TireModelType) : bool :=
  match t with RIGID | RIGID_MESH | TMEASY => true | _ => false end.

(** The tire that [Initialize] creates under a name for such a model. *)
Definition new_tire (t : TireModelType) (name : string) : Tire :=
  match t with
  | TMEASY => new_TMeasyTire name
  | _ => new_RigidTire name (is_RIGID_MESH t)
  end.

(** The tire models that fall to the [default] of the [switch]. *)
Definition models_without_case : list TireModelType :=
  [PACEJKA; LUGRE; FIALA; ANCF; REISSNER; FEA; PAC89; PAC02].

End Assembly.

(** *** A small assembly to compute with

    The chassis remembers its step size, the driveshaft speed, the torque
    last handed to it and how often it was advanced; the powertrain maps
    throttle and speed to a torque; a tire remembers its name, its step size
    and whether it was initialized. *)

Record ToyChassis : Set := mkToyChassis {
  c_step : double;
  c_speed : double;
  c_torque : double;
  c_drag : bool;
  c_advanced : nat
}.

Record ToyPowertrain : Set := mkToyPowertrain { p_torque : double; p_advanced : nat }.

Record ToyTire : Set := mkToyTire {
  t_name : string;
  t_mass : double;
  t_step : double;
  t_ready : bool
}.

#[local] Instance toy_parts : Parts := {|
  ChSystem := unit;
  ChTerrain := unit;
  Chassis := ToyChassis;
  Powertrain := ToyPowertrain;
  Tire := ToyTire
|}.

Definition toy_base_step : double := 0x1p-9%float.

Definition toy_advance (step : double) (v : @Vehicle toy_parts) : @Vehicle toy_parts :=
  let c := body v in
  mkVehicle
    (mkToyChassis (c_step c) (c_speed c + step * c_torque c)%float (c_torque c)
       (c_drag c) (S (c_advanced c)))
    (m_axles v).

#[local] Instance toy : @Collaborators toy_parts := {|
  new_Chassis_in := λ _ _ _, mkToyChassis toy_base_step 0%float 0%float false 0;
  new_Chassis := λ _ _ _, mkToyChassis toy_base_step 0%float 0%float false 0;
  SetInitWheelAngVel := λ _ c, c;
  Vehicle_Initialize := λ _ fwd c,
    mkToyChassis (c_step c) fwd (c_torque c) (c_drag c) (c_advanced c);
  Vehicle_SetStepsize := λ h c,
    mkToyChassis h (c_speed c) (c_torque c) (c_drag c) (c_advanced c);
  Chassis_SetAerodynamicDrag := λ _ _ _ c,
    mkToyChassis (c_step c) (c_speed c) (c_torque c) true (c_advanced c);
  GetDriveshaftSpeed := λ v, c_speed (body v);
  GetVehicleMass := λ _, 13000%float;
  Vehicle_Synchronize := λ _ _ _ torque _ v,
    mkVehicle
      (mkToyChassis (c_step (body v)) (c_speed (body v)) torque (c_drag (body v))
         (c_advanced (body v)))
      (m_axles v);
  Vehicle_Advance := toy_advance;
  new_SimpleMapPowertrain := λ _, mkToyPowertrain 0%float 0;
  Powertrain_Initialize := λ c p, (c, p);
  GetOutputTorque := p_torque;
  Powertrain_Synchronize := λ _ throttle speed p,
    mkToyPowertrain (throttle * 1024 - speed)%float (p_advanced p);
  Powertrain_Advance := λ _ p, mkToyPowertrain (p_torque p) (S (p_advanced p));
  new_RigidTire := λ name _, mkToyTire name 40%float toy_base_step false;
  new_TMeasyTire := λ name, mkToyTire name 32%float toy_base_step false;
  Tire_Initialize := λ t, mkToyTire (t_name t) (t_mass t) (t_step t) true;
  Tire_SetStepsize := λ h t, mkToyTire (t_name t) (t_mass t) h (t_ready t);
  ReportMass := t_mass
|}.

(** The default bus after [Initialize]. *)
Definition toy_bus : option (@CityBus toy_parts) := Initialize new_CityBus.

(** The default bus after [Initialize], written out. *)
Definition ready_tire (name : string) : ToyTire :=
  mkToyTire name 32%float toy_base_step true.

Definition ready_vehicle : @Vehicle toy_parts :=
  mkVehicle (mkToyChassis toy_base_step 0%float 0%float false 0)
    [ mkAxle [mkWheel (Some (ready_tire "FL")); mkWheel (Some (ready_tire "FR"))];
      mkAxle [mkWheel (Some (ready_tire "RL")); mkWheel (Some (ready_tire "RR"))] ].

Definition ready_powertrain : ToyPowertrain := mkToyPowertrain 0%float 0.

Definition ready_bus : @CityBus toy_parts :=
  with_subsystems ready_vehicle ready_powertrain (Some 32%float) new_CityBus.

(** Two [Advance] calls in a row, then a [Synchronize]. *)
Definition calls_out_of_order : list (@Call toy_parts) :=
  [CallAdvance 0.5%float; CallAdvance 0.5%float;
   CallSynchronize 1%float 0%float 0%float 1%float tt].

End Bus.

(** ** Sub-stepping of the tires inside one [Advance]

    [CityBus::Advance] in [CityBus.cpp] only forwards its step to the
    powertrain and to the vehicle; the loop that takes the tire sub-steps is
    in the vehicle library, outside the sources. It is taken here from
    section 4.1 of the spec. Step lengths are exact rationals; a length is
    handed to an integrator in lowest terms, so that numerically equal
    lengths are equal values. *)

Module SubStep.

#[local] Open Scope Q_scope.

Section Integration.

Context {WheelState PowertrainState : Type}.

(** One integration step of a tire with its wheel, and of the powertrain,
    over a given length: the force and torque laws are black boxes. *)
Variable tire_substep : Q → WheelState → WheelState.
Variable powertrain_step : Q → PowertrainState → PowertrainState.

(** Modelled from the spec: the VehicleAssembly of section 3 as far as
    [Advance] goes, "four wheel states", "one powertrain state" and the
    step size of the tires; the classes below [CityBus] are not among the
    sources. *)
Record Assembly : Type := mkAssembly {
  powertrain : PowertrainState;
  wheels : list WheelState;
  tireStep : Q
}.

(** Modelled from the spec: the number of tire sub-steps of
    [Advance(outerStep)], "ceil(outerStep / tireStep)"; the loop of the
    vehicle library that takes them is not among the sources. *)
Definition sub_step_count (outerStep tireStep : Q) : nat :=
  Z.to_nat (Qceiling (outerStep / tireStep)).

(** Modelled from the spec: the lengths of those sub-steps, "equal
    sub-steps (last sub-step may be shorter to land exactly on outerStep)";
    the loop of the vehicle library is not among the sources. *)
Definition sub_steps (outerStep tireStep : Q) : list Q :=
  match sub_step_count outerStep tireStep with
  | O => []
  | S m => replicate m tireStep ++ [outerStep - inject_Z (Z.of_nat m) * tireStep]
  end.

(** Modelled from the spec: a tire subsystem integrated "over outerStep",
    one sub-step after the other; the tire classes are not among the
    sources. *)
Definition advance_tire (outerStep tireStep : Q) (w : WheelState) : WheelState :=
  foldl (λ w h, tire_substep (Qred h) w) w (sub_steps outerStep tireStep).

(** Modelled from the spec: [Advance(outerStep)] "integrates powertrain
    once over outerStep, then integrates each tire subsystem over
    outerStep"; the vehicle and powertrain classes that do this below
    [CityBus::Advance] are not among the sources. *)
Definition Advance (outerStep : Q) (a : Assembly) : Assembly :=
  {| powertrain := powertrain_step (Qred outerStep) (powertrain a);
     wheels := advance_tire outerStep (tireStep a) <$> wheels a;
     tireStep := tireStep a |}.

(** [n] calls of [Advance], each with the same step. *)
Definition Advance_times (n : nat) (step : Q) (a : Assembly) : Assembly :=
  Nat.iter n (Advance step) a.

End Integration.

(** A wheel that relaxes towards the speed 10, integrated by explicit
    Euler steps, and a powertrain that only counts time. *)
Definition euler_wheel (h : Q) (omega : Q) : Q := omega + h * (10 - omega).

Definition clock_powertrain (h : Q) (t : Q) : Q := t + h.

Definition four_wheels : @Assembly Q Q :=
  {| powertrain := 0; wheels := [0; 1; 2; 3]; tireStep := 1 # 1000 |}.

End SubStep.

(** ** The ACC path-follower driver

    The demo creates a [ChPathFollowerACCDriver] or a
    [ChMulPathFollowerACCDriver], sets the gains of its two controllers and
    calls [changePath]; the classes themselves are in the vehicle library,
    outside the sources. The controller is taken here from sections 3 and
    4.3 of the spec, over exact rationals. *)

Module Acc.

#[local] Open Scope Q_scope.

(** Modelled from the spec: a path is "a sequence of 3-D control points
    defining a smooth curve, plus a flag marking whether a path is closed";
    the curve class is not among the sources. *)
Record Point : Set := mkPoint { px : Q; py : Q; pz : Q }.

Record Path : Set := mkPath { points : list Point; is_closed : bool }.

(** Modelled from the spec: a closed-loop controller with "gains Kp, Ki,
    Kd" and its "integral/derivative memory", the accumulated error for the
    integral term and the last error for the derivative term; the controller
    classes are not among the sources. *)
Record Gains : Set := mkGains { Kp : Q; Ki : Q; Kd : Q }.

Record Memory : Set := mkMemory { err_sum : Q; err_last : Q }.

Definition fresh_memory : Memory := mkMemory 0 0.

Record Loop : Set := mkLoop { gains : Gains; memory : Memory }.

(** Modelled from the spec: the "state machine over {SinglePath,
    MultiPath} mode" of section 4.3 and the configuration errors of section
    7 that concern the driver; the driver classes are not among the
    sources. *)
Inductive Mode : Set := SinglePath | MultiPath.

Inductive Error : Set := OutOfRange | DegeneratePath.

(** Modelled from the spec: "current vehicle state" as [Synchronize] reads
    it, and the "throttle/brake/steering commands" it computes. *)
Record OwnState : Set := mkOwnState { position : Point; heading : Q; own_speed : Q }.

Record Commands : Set := mkCommands { steering : Q; throttle : Q; braking : Q }.

(** Modelled from the spec: the PathFollowerController of section 3, an
    "ordered list of candidate paths", "two independent closed-loop
    controllers" and the "mutable state: active path index, target speed,
    target following time gap, minimum following distance, last-known
    distance to a tracked lead object"; the driver classes are not among the
    sources. *)
Record Controller : Set := mkController {
  mode : Mode;
  paths : list Path;
  active_path : nat;
  speed_loop : Loop;
  steering_loop : Loop;
  look_ahead : Q;
  target_speed : Q;
  following_time : Q;
  min_following_distance : Q;
  (** gain of the car-following law *)
  gap_gain : Q;
  (** last known distance to the tracked lead object, if any *)
  lead_distance : option Q
}.

(** Modelled from the spec: "PID(error)" of a controller with "gains Kp,
    Ki, Kd" and "integral/derivative memory"; the controller classes are not
    among the sources. One step returns the output and the controller with
    its memory updated. *)
Definition pid (err : Q) (l : Loop) : Q * Loop :=
  let sum := err_sum (memory l) + err in
  let diff := err - err_last (memory l) in
  (Kp (gains l) * err + Ki (gains l) * sum + Kd (gains l) * diff,
   mkLoop (gains l) (mkMemory sum err)).

(** Modelled from the spec: "clamped to" a range; the clamp function is not
    among the sources. *)
Definition clamp (lo hi x : Q) : Q :=
  if Qlt_le_dec x lo then lo else if Qlt_le_dec hi x then hi else x.

(** Modelled from the spec: a path with "fewer than 2 points ... must fail
    fast at construction"; the constructors of the drivers are not among the
    sources. The first path is the active one. *)
Definition degenerate (p : Path) : bool := (length (points p) <? 2)%nat.

(** Modelled from the spec: the construction of a driver from its paths,
    "target speed/following-distance" and the distance to the lead, as the
    demo calls it; gains and look-ahead are set afterwards. *)
Definition new_Controller (m : Mode) (ps : list Path)
    (target following_t min_distance current_distance : Q) : Controller + Error :=
  if existsb degenerate ps || (length ps =? 0)%nat
  then inr DegeneratePath
  else inl {| mode := m; paths := ps; active_path := 0;
              speed_loop := mkLoop (mkGains 0 0 0) fresh_memory;
              steering_loop := mkLoop (mkGains 0 0 0) fresh_memory;
              look_ahead := 0;
              target_speed := target; following_time := following_t;
              min_following_distance := min_distance;
              gap_gain := 1;
              lead_distance := Some current_distance |}.

(** Modelled from the spec: the "gains" of the speed controller, set as the
    demo does with [GetSpeedController().SetGains]; the method is not among
    the sources. *)
Definition SetSpeedGains (kp ki kd : Q) (c : Controller) : Controller :=
  {| mode := mode c; paths := paths c; active_path := active_path c;
     speed_loop := mkLoop (mkGains kp ki kd) (memory (speed_loop c));
     steering_loop := steering_loop c; look_ahead := look_ahead c;
     target_speed := target_speed c; following_time := following_time c;
     min_following_distance := min_following_distance c;
     gap_gain := gap_gain c; lead_distance := lead_distance c |}.

(** Modelled from the spec: the "gains" of the steering controller, set as
    the demo does with [GetSteeringController().SetGains]. *)
Definition SetSteeringGains (kp ki kd : Q) (c : Controller) : Controller :=
  {| mode := mode c; paths := paths c; active_path := active_path c;
     speed_loop := speed_loop c;
     steering_loop := mkLoop (mkGains kp ki kd) (memory (steering_loop c));
     look_ahead := look_ahead c;
     target_speed := target_speed c; following_time := following_time c;
     min_following_distance := min_following_distance c;
     gap_gain := gap_gain c; lead_distance := lead_distance c |}.

(** Modelled from the spec: the "look-ahead distance" of the steering
    controller, set as the demo does with [SetLookAheadDistance]. *)
Definition SetLookAheadDistance (dist : Q) (c : Controller) : Controller :=
  {| mode := mode c; paths := paths c; active_path := active_path c;
     speed_loop := speed_loop c; steering_loop := steering_loop c;
     look_ahead := dist;
     target_speed := target_speed c; following_time := following_time c;
     min_following_distance := min_following_distance c;
     gap_gain := gap_gain c; lead_distance := lead_distance c |}.

(** Modelled from the spec: [changePath(index)] "validates
    0 <= index < pathCount; fails with an out-of-range error otherwise; is
    idempotent if called with the already-active index", and "on switch,
    reset only the steering controller's integral/derivative memory,
    preserve speed-controller memory"; the method of the multi-path driver
    is not among the sources. The result is the controller after the call
    and the error reported, if any. *)
Definition in_range (index : Z) (c : Controller) : bool :=
  (0 <=? index)%Z && (index <? Z.of_nat (length (paths c)))%Z.

Definition changePath (index : Z) (c : Controller) : Controller * option Error :=
  if in_range index c
  then if (index =? Z.of_nat (active_path c))%Z
       then (c, None)
       else ({| mode := mode c; paths := paths c;
                active_path := Z.to_nat index;
                speed_loop := speed_loop c;
                steering_loop := mkLoop (gains (steering_loop c)) fresh_memory;
                look_ahead := look_ahead c;
                target_speed := target_speed c;
                following_time := following_time c;
                min_following_distance := min_following_distance c;
                gap_gain := gap_gain c; lead_distance := lead_distance c |},
             None)
  else (c, Some OutOfRange).

Section Control.

(** The signed lateral and heading error of the vehicle against the point
    of the active path that lies the look-ahead distance ahead of its
    projection: geometry on the curve, a black box here. *)
Variable steering_error : list Path → nat → Q → OwnState → Q.

(** Modelled from the spec: step 2 of [Synchronize], "desired gap =
    max(minFollowingDistance, targetSpeed * followingTime)". *)
Definition desired_gap (c : Controller) : Q :=
  Qmax (min_following_distance c) (target_speed c * following_time c).

(** Modelled from the spec: the target acceleration of step 2; with a lead
    object closer than the desired gap it "is reduced proportionally to gap
    error", otherwise it is the output of the speed controller on the speed
    error. *)
Definition target_acceleration (free_flow : Q) (lead : option Q) (c : Controller) : Q :=
  match lead with
  | Some distance =>
      if Qlt_le_dec distance (desired_gap c)
      then free_flow - gap_gain c * (desired_gap c - distance)
      else free_flow
  | None => free_flow
  end.

(** Modelled from the spec: "Result maps to throttle (positive) or braking
    (negative), never both nonzero simultaneously, clamped to [0,1] each". *)
Definition pedals (acceleration : Q) : Q * Q :=
  if Qlt_le_dec 0 acceleration
  then (clamp 0 1 acceleration, 0)
  else (0, clamp 0 1 (- acceleration)).

(** Modelled from the spec: [Synchronize(time, ownState, leadDistance)],
    steps 1 to 3 of section 4.3; the driver classes are not among the
    sources. [trigger] is the index the caller-driven trigger of step 3 asks
    for in this tick, if it fired. The result is the controller after the
    call, the commands, and the error of a refused path switch, if any. *)
Definition Synchronize (time : Q) (own : OwnState) (lead : option Q)
    (trigger : option Z) (c : Controller) : Controller * Commands * option Error :=
  let '(steer, steering') :=
    pid (steering_error (paths c) (active_path c) (look_ahead c) own)
        (steering_loop c) in
  let '(free_flow, speed') := pid (target_speed c - own_speed own) (speed_loop c) in
  let '(thr, brk) := pedals (target_acceleration free_flow lead c) in
  let c' :=
    {| mode := mode c; paths := paths c; active_path := active_path c;
       speed_loop := speed'; steering_loop := steering';
       look_ahead := look_ahead c;
       target_speed := target_speed c; following_time := following_time c;
       min_following_distance := min_following_distance c;
       gap_gain := gap_gain c;
       lead_distance := match lead with Some d => Some d | None => lead_distance c end |} in
  let commands := mkCommands (clamp (-1) 1 steer) thr brk in
  match mode c, trigger with
  | MultiPath, Some index =>
      let '(c'', err) := changePath index c' in (c'', commands, err)
  | _, _ => (c', commands, None)
  end.

End Control.

(** The outputs of a controller fed a sequence of errors, first error
    first. *)
Fixpoint outputs (errs : list Q) (l : Loop) : list Q :=
  match errs with
  | [] => []
  | err :: errs => let '(out, l') := pid err l in out :: outputs errs l'
  end.

(** The memory of a controller after a sequence of errors. *)
Definition after (errs : list Q) (l : Loop) : Loop :=
  foldl (λ l err, snd (pid err l)) l errs.

(** The invariant of the data model: the active path is one of the paths. *)
Definition valid (c : Controller) : Prop :=
  (active_path c < length (paths c))%nat.

(** *** The controller of rank 0 in the demo *)

Definition straight (x y0 y1 : Q) : Path :=
  mkPath [mkPoint x y0 (2 # 10); mkPoint x y1 (2 # 10)] false.

Definition demo_paths : list Path :=
  [straight (28 # 10) (-70) 70; straight (64 # 10) (-70) 70].

Definition demo_gains : Gains := mkGains (4 # 10) (1 # 10) (2 # 10).

Definition demo_controller : Controller :=
  {| mode := MultiPath; paths := demo_paths; active_path := 0;
     speed_loop := mkLoop (mkGains (4 # 10) 0 0) fresh_memory;
     steering_loop := mkLoop demo_gains fresh_memory;
     look_ahead := 5;
     target_speed := 10; following_time := 12 # 10;
     min_following_distance := 10;
     gap_gain := 1;
     lead_distance := Some 100 |}.

(** The controller after the steering loop has seen the errors 1 and 2. *)
Definition demo_controller_later : Controller :=
  {| mode := MultiPath; paths := demo_paths; active_path := 0;
     speed_loop := mkLoop (mkGains (4 # 10) 0 0) (mkMemory 3 (1 # 2));
     steering_loop := after [1; 2] (mkLoop demo_gains fresh_memory);
     look_ahead := 5;
     target_speed := 10; following_time := 12 # 10;
     min_following_distance := 10;
     gap_gain := 1;
     lead_distance := Some 100 |}.

End Acc.

(** ** The simulation loop of the highway demo *)

Module Highway.

(** What the loop of [main] does, in the order it does it. *)
Inductive Event : Set :=
  | EvIsOk (ok : bool)
  | EvAdvance
  | EvSynchronize
  | EvChangePath (path : Z)
  | EvUpdate.

#[local] Instance Event_eq_dec : EqDecision Event.
Proof. solve_decision. Defined.

(** [1e-2] as a double. *)
Definition tolerance : double := 0x1.47ae147ae147bp-7%float.

Section Loop.

(** Everything the loop works on: the MPI manager with its agent, and
    through the agent the vehicle, its system and its driver. The manager
    class is in the SynChrono library, outside the sources; its methods are
    black boxes. *)
Context {World : Type}.

Variable rank : Z.
Variable IsOk : World → bool.
Variable mpi_Advance : World → World.
Variable mpi_Synchronize : World → World.
Variable mpi_Update : World → World.
(** [agent->GetSystem()->GetChTime()] *)
Variable GetChTime : World → double.
(** [std::dynamic_pointer_cast<ChMulPathFollowerACCDriver>(driver)->changePath(path)] *)
Variable driver_changePath : Z → World → World.

(** [rank == 0 && std::abs(agent->GetSystem()->GetChTime() - 6) < 1e-2] *)
Definition switch_due (w : World) : bool :=
  (rank =? 0)%Z && lt (fabs (GetChTime w - 6)%float) tolerance.

(** The body of the [while] loop. The block under [#ifdef SENSOR] only
    moves the camera of a visualization and is left out. *)
Definition loop_body (w : World) : World * list Event :=
  let w := mpi_Advance w in
  let w := mpi_Synchronize w in
  let '(w, switched) :=
    if switch_due w
    then (driver_changePath 1 w, [EvChangePath 1])
    else (w, []) in
  let w := mpi_Update w in
  (w, [EvAdvance; EvSynchronize] ++ switched ++ [EvUpdate]).

(** [while (mpi_manager.IsOk()) { ... }], run for at most [fuel] tests of
    the condition: the world reached, what happened, and whether the loop
    was left. *)
Fixpoint simulation_loop (fuel : nat) (w : World) : World * list Event * bool :=
  match fuel with
  | O => (w, [], false)
  | S fuel =>
      if IsOk w
      then let '(w, events) := loop_body w in
           let '(w, later, stopped) := simulation_loop fuel w in
           (w, EvIsOk true :: events ++ later, stopped)
      else (w, [EvIsOk false], true)
  end.

(** The world after [n] rounds of the loop body. *)
Definition after_ticks (n : nat) (w : World) : World :=
  Nat.iter n (λ w, fst (loop_body w)) w.

(** The events of one tick. *)
Inductive tick_events : list Event → Prop :=
  | tick_plain :
      tick_events [EvIsOk true; EvAdvance; EvSynchronize; EvUpdate]
  | tick_switch :
      tick_events [EvIsOk true; EvAdvance; EvSynchronize; EvChangePath 1; EvUpdate].

(** The events of a run: whole ticks, and at the end the failed test of
    the condition if the loop was left. *)
Inductive run_events : bool → list Event → Prop :=
  | run_open : run_events false []
  | run_left : run_events true [EvIsOk false]
  | run_tick tick later stopped :
      tick_events tick → run_events stopped later → run_events stopped (tick ++ later).

(** Whether a path switch happens inside a tick, between its [Advance] and
    its [Update]; [in_tick] tells whether a tick is under way. *)
Fixpoint switch_inside_tick (in_tick : bool) (events : list Event) : bool :=
  match events with
  | [] => false
  | EvAdvance :: events => switch_inside_tick true events
  | EvUpdate :: events => switch_inside_tick false events
  | EvChangePath _ :: events => in_tick || switch_inside_tick in_tick events
  | _ :: events => switch_inside_tick in_tick events
  end.

(** The number of ticks that were carried through to their [Update]. *)
Definition ticks_completed (events : list Event) : nat :=
  length (filter (λ e, e = EvUpdate) events).

(** The call that an event stands for, made on a world. The test of
    [IsOk] changes nothing and must give the answer the event has; a path
    switch is made only where [switch_due] holds. *)
Definition replay_event (e : Event) (w : World) : option World :=
  match e with
  | EvIsOk ok => if Bool.eqb (IsOk w) ok then Some w else None
  | EvAdvance => Some (mpi_Advance w)
  | EvSynchronize => Some (mpi_Synchronize w)
  | EvChangePath path => if switch_due w then Some (driver_changePath path w) else None
  | EvUpdate => Some (mpi_Update w)
  end.

(** The calls of a sequence of events, made one after the other. *)
Fixpoint replay (events : list Event) (w : World) : option World :=
  match events with
  | [] => Some w
  | e :: events => w ← replay_event e w; replay events w
  end.

End Loop.

(** *** A run of three ticks

    A world with a clock that [Advance] moves on by 3, a number of ticks
    after which [IsOk] fails, the index of the path the driver follows, and
    a record that the manager and the driver keep themselves of the calls
    they receive, in the order in which they receive them. *)

Record ToyWorld : Set := mkToyWorld {
  clock : double;
  ticks_left : nat;
  path : Z;
  calls : list Event
}.

Definition toy_IsOk (w : ToyWorld) : bool := (0 <? ticks_left w)%nat.

Definition toy_Advance (w : ToyWorld) : ToyWorld :=
  mkToyWorld (clock w + 3)%float (ticks_left w) (path w) (calls w ++ [EvAdvance]).

Definition toy_Synchronize (w : ToyWorld) : ToyWorld :=
  mkToyWorld (clock w) (ticks_left w) (path w) (calls w ++ [EvSynchronize]).

Definition toy_Update (w : ToyWorld) : ToyWorld :=
  mkToyWorld (clock w) (Nat.pred (ticks_left w)) (path w) (calls w ++ [EvUpdate]).

Definition toy_changePath (index : Z) (w : ToyWorld) : ToyWorld :=
  mkToyWorld (clock w) (ticks_left w) index (calls w ++ [EvChangePath index]).

Definition toy_start : ToyWorld := mkToyWorld 0%float 3 0 [].

(** The loop of rank 0 on that world. *)
Definition toy_loop (fuel : nat) (w : ToyWorld) : ToyWorld * list Event * bool :=
  simulation_loop 0 toy_IsOk toy_Advance toy_Synchronize toy_Update clock
    toy_changePath fuel w.

Definition toy_after (n : nat) (w : ToyWorld) : ToyWorld :=
  after_ticks 0 toy_Advance toy_Synchronize toy_Update clock toy_changePath n w.

End Highway.

(** ** ChAssetLevel: a level filled asset by asset *)

Module LevelBuild.

Import AssetLevel.

Section Build.

Context {ChAsset ChFrame : Type}.

(** A sequence of [AddAsset] calls on a level, first pointer first. *)
Definition AddAssets (ps : list (@shared_ptr ChAsset))
    (lv : @ChAssetLevel ChAsset ChFrame) : @ChAssetLevel ChAsset ChFrame :=
  foldl (λ lv p, AddAsset p lv) lv ps.

End Build.

End LevelBuild.

(** ** CityBus: configuration and the loops over the tires *)

Module BusMore.

Import Bus.

(** The visualization of the tires: the type of the mode and the method of
    the tire classes that sets it are in the vehicle library, outside the
    sources. *)
Class TireVisualization `{Parts} : Type := {
  VisualizationType : Type;
  (** [tire->SetVisualizationType(vis)] *)
  Tire_SetVisualizationType : VisualizationType → Tire → Tire
}.

Section More.

Context `{Collaborators}.
Context `{!TireVisualization}.

(** The assembly with its vehicle replaced. *)
Definition with_vehicle (v : Vehicle) (b : CityBus) : CityBus :=
  {| m_system := m_system b; m_vehicle := Some v; m_powertrain := m_powertrain b;
     m_contactMethod := m_contactMethod b;
     m_chassisCollisionType := m_chassisCollisionType b;
     m_fixed := m_fixed b; m_tireType := m_tireType b;
     m_vehicle_step_size := m_vehicle_step_size b;
     m_tire_step_size := m_tire_step_size b;
     m_initFwdVel := m_initFwdVel b; m_initPos := m_initPos b;
     m_initOmega := m_initOmega b; m_apply_drag := m_apply_drag b;
     m_Cd := m_Cd b; m_area := m_area b; m_air_density := m_air_density b;
     m_tire_mass := m_tire_mass b |}.

(** The two nested loops over [GetAxles()] and [GetWheels()] with a body
    [wheel->GetTire()->method(...)]: the method is called on the tire of
    every wheel, through a pointer that is null when the wheel has none. *)
Definition for_each_tire (method : Tire → Tire) (v : Vehicle) : option Vehicle :=
  axles ← mapM (λ axle,
             mkAxle <$> mapM (λ wheel, tire ← m_tire wheel;
                                        Some (mkWheel (Some (method tire))))
                          (m_wheels axle))
           (m_axles v);
  Some (mkVehicle (body v) axles).

(** [CityBus::SetTireVisualizationType] *)
Definition SetTireVisualizationType (vis : VisualizationType) (b : CityBus)
  : option CityBus :=
  v ← m_vehicle b;
  v ← for_each_tire (Tire_SetVisualizationType vis) v;
  Some (with_vehicle v b).

(** The assemblies that the two constructors and the setters produce. *)
Inductive configured : CityBus → Prop :=
  | configured_new : configured new_CityBus
  | configured_new_in system : configured (new_CityBus_in system)
  | configured_drag Cd area air_density b :
      configured b → configured (SetAerodynamicDrag Cd area air_density b)
  | configured_vehicle_step step_size b :
      configured b → configured (SetVehicleStepSize step_size b)
  | configured_tire_step step_size b :
      configured b → configured (SetTireStepSize step_size b)
  | configured_tire_type val b :
      configured b → configured (SetTireType val b).

(** What the constructors and setters keep true: no vehicle and no
    powertrain yet, and the three drag parameters assigned whenever the flag
    [m_apply_drag] is set. *)
Definition unassembled (b : CityBus) : Prop :=
  m_vehicle b = None ∧ m_powertrain b = None ∧
  (m_apply_drag b = true →
   is_Some (m_Cd b) ∧ is_Some (m_area b) ∧ is_Some (m_air_density b)).

(** The members that hold the configuration, everything but the vehicle,
    the powertrain and the tire mass. *)
Definition same_configuration (b b' : CityBus) : Prop :=
  m_system b' = m_system b ∧
  m_contactMethod b' = m_contactMethod b ∧
  m_chassisCollisionType b' = m_chassisCollisionType b ∧
  m_fixed b' = m_fixed b ∧
  m_tireType b' = m_tireType b ∧
  m_vehicle_step_size b' = m_vehicle_step_size b ∧
  m_tire_step_size b' = m_tire_step_size b ∧
  m_initFwdVel b' = m_initFwdVel b ∧
  m_initPos b' = m_initPos b ∧
  m_initOmega b' = m_initOmega b ∧
  m_apply_drag b' = m_apply_drag b ∧
  m_Cd b' = m_Cd b ∧ m_area b' = m_area b ∧ m_air_density b' = m_air_density b.

(** The chassis that [Initialize] hands to the powertrain: created,
    initialized, given its step size, and given the drag parameters when
    they were set. *)
Definition prepared_chassis (b : CityBus) : option Chassis :=
  apply_drag b (apply_vehicle_step b (create_vehicle b)).

(** What the loop at the end of [Initialize] does to a tire: it sets the
    step size when that is above zero. *)
Definition finish_tire (b : CityBus) (tire : Tire) : Tire :=
  if gt (m_tire_step_size b) 0%float
  then Tire_SetStepsize (m_tire_step_size b) tire
  else tire.

(** The tire of a name as [Initialize] leaves it on its wheel: created for
    the tire model, initialized on the wheel, and finished. *)
Definition made_tire (b : CityBus) (name : string) : Tire :=
  finish_tire b (Tire_Initialize (new_tire (m_tireType b) name)).

(** The mass that the [switch] of [Initialize] reads off the front left
    tire, before the loop over the tires. *)
Definition front_left_mass (b : CityBus) : double :=
  ReportMass (Tire_Initialize (new_tire (m_tireType b) "FL"%string)).

End More.

(** The small tire shows its visualization mode in its name. *)
Definition toy_SetVisualizationType (vis : string) (t : ToyTire) : ToyTire :=
  mkToyTire (t_name t ++ "/" ++ vis)%string (t_mass t) (t_step t) (t_ready t).

#[local] Instance toy_visualization : @TireVisualization toy_parts :=
  @Build_TireVisualization toy_parts string toy_SetVisualizationType.

(** A fresh bus with a tire model left to the [default] and a positive
    tire step. *)
Definition fiala_with_step : @CityBus toy_parts :=
  SetTireStepSize 0.25%float (SetTireType FIALA new_CityBus).

(** One tick: [Synchronize] with full throttle, then [Advance]. *)
Definition one_tick : list (@Call toy_parts) :=
  [@CallSynchronize toy_parts 0%float 0%float 0%float 1%float tt;
   @CallAdvance toy_parts 0.5%float].

End BusMore.

(** ** The highway demo: vehicle and driver of a rank *)

Module Demo.

Import Bus Highway.

#[local] Set Warnings "-inexact-float".
#[local] Open Scope float_scope.

(** An [int] that is not negative, converted to [double]: exact, as every
    [int] is. *)
Fixpoint double_of_positive (p : positive) : double :=
  match p with
  | xH => 1
  | xO p => 2 * double_of_positive p
  | xI p => 2 * double_of_positive p + 1
  end.

(** The conversion of an [int] to [double]. *)
Definition double_of_int (z : Z) : double :=
  match z with
  | Z0 => 0
  | Zpos p => double_of_positive p
  | Zneg p => - double_of_positive p
  end.

(** [ChVector<>] sum and difference. *)
Definition vadd (a b : ChVector) : ChVector :=
  mkVector (vx a + vx b) (vy a + vy b) (vz a + vz b).

Definition vsub (a b : ChVector) : ChVector :=
  mkVector (vx a - vx b) (vy a - vy b) (vz a - vz b).

(** What [InitializeVehicle] builds the vehicle from: the file of the
    model and the coordinate system it is initialized at. *)
Record VehicleSetup : Set := mkVehicleSetup {
  filename : string;
  init_loc : ChVector;
  init_rot : ChQuaternion
}.

Inductive DriverClass : Set := ChPathFollowerACCDriver | ChMulPathFollowerACCDriver.

(** What [main] builds the driver from: its class, its paths (control
    points and the flag "closed"), the four numbers of the ACC law, and the
    gains and look-ahead distance set afterwards. *)
Record DriverSetup : Set := mkDriverSetup {
  driver_class : DriverClass;
  driver_paths : list (list ChVector * bool);
  target_speed : double;
  target_following_time : double;
  target_min_distance : double;
  current_distance : double;
  speed_gains : double * double * double;
  steering_gains : double * double * double;
  look_ahead_distance : double
}.

Section Setup.

(** [CH_C_DEG_TO_RAD] and [Q_from_AngZ] of the core library, outside the
    sources. *)
Variable CH_C_DEG_TO_RAD : double.
Variable Q_from_AngZ : double → ChQuaternion.

(** [InitializeVehicle(int rank)]; [rank % 2] is the remainder of the
    division that truncates. *)
Definition InitializeVehicle (rank : Z) : VehicleSetup :=
  match rank with
  | 0%Z =>
      mkVehicleSetup "vehicle/Sedan.json" (mkVector 2.8 (-70) 0.2)
        (Q_from_AngZ (90 * CH_C_DEG_TO_RAD))
  | 1%Z =>
      mkVehicleSetup "vehicle/Sedan.json" (mkVector 2.8 (-40) 0.2)
        (Q_from_AngZ (90 * CH_C_DEG_TO_RAD))
  | 2%Z =>
      mkVehicleSetup "vehicle/CityBus.json" (mkVector 6.4 0 0.2)
        (Q_from_AngZ (90 * CH_C_DEG_TO_RAD))
  | _ =>
      let init_rot := Q_from_AngZ (-90 * CH_C_DEG_TO_RAD) in
      if (Z.rem rank 2 =? 0)%Z
      then mkVehicleSetup "vehicle/Sedan.json"
             (mkVector (-2.8) (70.0 - (double_of_int rank - 4.0) * 30) 0.2) init_rot
      else mkVehicleSetup "vehicle/CityBus.json"
             (mkVector (-6.4) (70.0 - (double_of_int rank - 4.0) * 30) 0.2) init_rot
  end.

(** The section "Controller" of [main]: the control points of the path of
    this rank, from the position [loc] of its vehicle. *)
Definition curve_pts (rank : Z) (loc : ChVector) : list ChVector :=
  if (rank <? 4)%Z
  then [loc; vadd loc (mkVector 0 140 0)]
  else [loc; vsub loc (mkVector 0 140 0)].

Definition curve_pts2 : list ChVector := [mkVector 6.4 (-70) 0.2; mkVector 6.4 70 0.2].

(** The driver of this rank, after the calls that set its gains and its
    look-ahead distance. *)
Definition make_driver (rank : Z) (loc : ChVector) : DriverSetup :=
  let path := curve_pts rank loc in
  let target_speed := if (rank =? 2)%Z then 6 else 10 in
  let target_following_time := 1.2 in
  let target_min_distance := 10 in
  let current_distance := 100 in
  let is_path_closed := false in
  if negb (rank =? 0)%Z
  then mkDriverSetup ChPathFollowerACCDriver [(path, is_path_closed)]
         target_speed target_following_time target_min_distance current_distance
         (0.4, 0.0, 0.0) (0.4, 0.1, 0.2) 5
  else mkDriverSetup ChMulPathFollowerACCDriver [(path, false); (curve_pts2, false)]
         target_speed target_following_time target_min_distance current_distance
         (0.4, 0.0, 0.0) (0.4, 0.1, 0.2) 5.

(** [if (rank == 1) brain->setMultipath(true);] *)
Definition brain_multipath (rank : Z) : bool := (rank =? 1)%Z.

End Setup.

(** [std::dynamic_pointer_cast<ChMulPathFollowerACCDriver>(driver)]: the
    pointer itself for a driver of that class, a null pointer otherwise. *)
Definition cast_to_ChMulPathFollowerACCDriver (driver : DriverSetup)
  : option DriverSetup :=
  match driver_class driver with
  | ChMulPathFollowerACCDriver => Some driver
  | ChPathFollowerACCDriver => None
  end.

Section CheckedLoop.

Context {World : Type}.

Variable rank : Z.
Variable IsOk : World → bool.
Variable mpi_Advance : World → World.
Variable mpi_Synchronize : World → World.
Variable mpi_Update : World → World.
Variable GetChTime : World → double.
Variable driver_changePath : Z → World → World.

(** The body of the [while] loop of [main] with the pointer cast looked
    at: calling [changePath] through a null pointer is undefined. *)
Definition loop_body_cast (driver : DriverSetup) (w : World)
  : option (World * list Event) :=
  let w := mpi_Advance w in
  let w := mpi_Synchronize w in
  '(w, switched) ←
    (if switch_due rank GetChTime w
     then _ ← cast_to_ChMulPathFollowerACCDriver driver;
          Some (driver_changePath 1 w, [EvChangePath 1])
     else Some (w, []));
  let w := mpi_Update w in
  Some (w, [EvAdvance; EvSynchronize] ++ switched ++ [EvUpdate]).

(** The loop of [main] with that body, for at most [fuel] tests of the
    condition. *)
Fixpoint simulation_loop_cast (driver : DriverSetup) (fuel : nat) (w : World)
  : option (World * list Event * bool) :=
  match fuel with
  | O => Some (w, [], false)
  | S fuel =>
      if IsOk w
      then '(w, events) ← loop_body_cast driver w;
           '(w, later, stopped) ← simulation_loop_cast driver fuel w;
           Some (w, EvIsOk true :: events ++ later, stopped)
      else Some (w, [EvIsOk false], true)
  end.

End CheckedLoop.

End Demo.

(** * Part II: the properties *)

(** ** Loops over vectors that can fail *)

Lemma mapM_nil_unfold {A B} (f : A → option B) : mapM f [] = Some [].
Proof. reflexivity. Qed.

Lemma mapM_cons_unfold {A B} (f : A → option B) (x : A) (l : list A) :
  mapM f (x :: l) = y ← f x; k ← mapM f l; Some (y :: k).
Proof. reflexivity. Qed.

(** ** ChAssetLevel *)

Module AssetLevelFacts.

Import AssetLevel.

Section LevelFacts.

Context {ChAsset ChFrame : Type}.

#[local] Abbreviation ptr := (@shared_ptr ChAsset).
#[local] Abbreviation level := (@ChAssetLevel ChAsset ChFrame).

Lemma size_lt_lookup (v : list ptr) (num : N) :
  (num < size v)%N → is_Some (index v num).
Proof.
  unfold size, index. intros Hlt.
  apply lookup_lt_is_Some. lia.
Qed.

Lemma size_ge_lookup (v : list ptr) (num : N) :
  (size v ≤ num)%N → index v num = None.
Proof.
  unfold size, index. intros Hge.
  apply lookup_ge_None. lia.
Qed.

Lemma GetAssetN_in_range (num : N) (lv : level) (p : ptr) :
  index (assets lv) num = Some p → GetAssetN num lv = Some (p, lv).
Proof.
  intros Hp. unfold GetAssetN.
  destruct (N.ltb_spec num (size (assets lv))) as [_|Hge].
  - rewrite Hp. reflexivity.
  - rewrite size_ge_lookup in Hp by exact Hge. discriminate.
Qed.

Lemma GetAssetN_past_end (num : N) (lv : level) :
  (size (assets lv) ≤ num)%N → GetAssetN num lv = Some (null_ptr, lv).
Proof.
  intros Hge. unfold GetAssetN.
  destruct (N.ltb_spec num (size (assets lv))) as [Hlt|_]; [lia|reflexivity].
Qed.

Lemma index_AddAsset_old (masset : ptr) (lv : level) (num : N) :
  (num < size (assets lv))%N →
  index (assets (AddAsset masset lv)) num = index (assets lv) num.
Proof.
  unfold size, index. simpl. intros Hlt.
  apply lookup_app_l. lia.
Qed.

Lemma index_AddAsset_new (masset : ptr) (lv : level) :
  index (assets (AddAsset masset lv)) (size (assets lv)) = Some masset.
Proof.
  unfold size, index. simpl. rewrite Nat2N.id.
  rewrite lookup_app_r by lia.
  rewrite Nat.sub_diag. reflexivity.
Qed.

Lemma size_AddAsset (masset : ptr) (lv : level) :
  size (assets (AddAsset masset lv)) = N.succ (size (assets lv)).
Proof.
  unfold size. simpl. rewrite length_app. simpl. lia.
Qed.

(** C10. [GetAssetN num] never faults and never changes the level; it
    returns the pointer stored at position [num] when [num] is below the
    number of stored assets and the empty pointer otherwise. [AddAsset]
    appends at the end: the frame and every asset stored before stay as
    they were, and the new pointer is found at the old size. *)
Theorem GetAssetN_AddAsset_spec (lv : level) (num : N) (masset : ptr) :
  (∃ p, GetAssetN num lv = Some (p, lv)) ∧
  ((num < size (assets lv))%N →
     ∃ p, assets lv !! N.to_nat num = Some p ∧ GetAssetN num lv = Some (p, lv)) ∧
  ((size (assets lv) ≤ num)%N → GetAssetN num lv = Some (null_ptr, lv)) ∧
  assets (AddAsset masset lv) = assets lv ++ [masset] ∧
  levelframe (AddAsset masset lv) = levelframe lv ∧
  ((num < size (assets lv))%N →
     fst <$> GetAssetN num (AddAsset masset lv) = fst <$> GetAssetN num lv) ∧
  fst <$> GetAssetN (size (assets lv)) (AddAsset masset lv) = Some masset.
Proof.
  assert (Hin : (num < size (assets lv))%N →
            ∃ p, assets lv !! N.to_nat num = Some p ∧ GetAssetN num lv = Some (p, lv)).
  { intros Hlt. destruct (size_lt_lookup _ _ Hlt) as [p Hp].
    exists p. split; [exact Hp|]. apply GetAssetN_in_range, Hp. }
  repeat split.
  - destruct (N.lt_ge_cases num (size (assets lv))) as [Hlt|Hge].
    + destruct (Hin Hlt) as (p & _ & Hp). eauto.
    + exists null_ptr. apply GetAssetN_past_end, Hge.
  - exact Hin.
  - apply GetAssetN_past_end.
  - intros Hlt. destruct (Hin Hlt) as (p & Hp & Hget).
    rewrite Hget.
    rewrite (GetAssetN_in_range num (AddAsset masset lv) p).
    + reflexivity.
    + rewrite index_AddAsset_old by exact Hlt. exact Hp.
  - rewrite (GetAssetN_in_range _ (AddAsset masset lv) masset).
    + reflexivity.
    + apply index_AddAsset_new.
Qed.

End LevelFacts.

Lemma GetAssetN_AddAsset_spec_witness :
  (1 < size (assets demo_level))%N ∧
  (size (assets demo_level) ≤ 3)%N ∧
  GetAssetN 2 demo_level = Some (Some 7%nat, demo_level) ∧
  GetAssetN 3 demo_level = Some (None, demo_level) ∧
  fst <$> GetAssetN 1 (AddAsset (Some 9%nat) demo_level) = fst <$> GetAssetN 1 demo_level.
Proof.
  pose proof (GetAssetN_AddAsset_spec demo_level 1 (Some 9%nat)) as (_ & _ & _ & _ & _ & Hold & _).
  pose proof (GetAssetN_AddAsset_spec demo_level 3 (Some 9%nat)) as (_ & _ & Hout & _).
  split; [reflexivity|].
  split; [vm_compute; discriminate|].
  split; [reflexivity|].
  split; [apply Hout; vm_compute; discriminate|].
  apply Hold. reflexivity.
Defined.

End AssetLevelFacts.

(** ** CityBus *)

Module BusFacts.

Import Bus BusMore.

Section AssemblyFacts.

Context `{Collaborators}.

Lemma Synchronize_eq (time steering braking throttle : double) (terrain : ChTerrain)
    (b : CityBus) (v : Vehicle) (p : Powertrain) :
  m_vehicle b = Some v → m_powertrain b = Some p →
  Synchronize time steering braking throttle terrain b =
    Some (with_subsystems
            (Vehicle_Synchronize time steering braking (GetOutputTorque p) terrain v)
            (Powertrain_Synchronize time throttle (GetDriveshaftSpeed v) p)
            (m_tire_mass b) b).
Proof.
  intros Hv Hp. unfold Synchronize. rewrite Hp, Hv. reflexivity.
Qed.

Lemma Advance_eq (step : double) (b : CityBus) (v : Vehicle) (p : Powertrain) :
  m_vehicle b = Some v → m_powertrain b = Some p →
  Advance step b =
    Some (with_subsystems (Vehicle_Advance step v) (Powertrain_Advance step p)
            (m_tire_mass b) b).
Proof.
  intros Hv Hp. unfold Advance. rewrite Hp, Hv. reflexivity.
Qed.

Lemma with_subsystems_assembled v p m b : assembled (with_subsystems v p m b).
Proof. split; simpl; eauto. Qed.

Lemma call_assembled (c : Call) (b : CityBus) :
  assembled b → ∃ b', call c b = Some b' ∧ assembled b'.
Proof.
  intros [[v Hv] [p Hp]].
  destruct c as [time steering braking throttle terrain|step]; simpl.
  - rewrite (Synchronize_eq _ _ _ _ _ _ v p Hv Hp).
    eexists; split; [reflexivity|apply with_subsystems_assembled].
  - rewrite (Advance_eq _ _ v p Hv Hp).
    eexists; split; [reflexivity|apply with_subsystems_assembled].
Qed.

Lemma run_assembled (cs : list Call) (b : CityBus) :
  assembled b → ∃ b', run cs b = Some b' ∧ assembled b'.
Proof.
  revert b. induction cs as [|c cs IH]; intros b Hb; simpl.
  - eauto.
  - destruct (call_assembled c b Hb) as (b1 & Hcall & Hb1).
    rewrite Hcall. simpl. apply IH, Hb1.
Qed.

(** C1. [Synchronize] hands to the vehicle the torque the powertrain put
    out before this call, and only then lets the powertrain see the current
    driveshaft speed. So the vehicle after [Synchronize] does not depend on
    the throttle of this tick, and in the next tick (after [Advance]) it
    receives the torque that was computed from the driveshaft speed of this
    tick: a lag of one step. *)
Theorem Synchronize_torque_one_step_behind
    (b : CityBus) (v : Vehicle) (p : Powertrain)
    (time steering braking throttle : double) (terrain : ChTerrain)
    (step time' steering' braking' throttle' : double) (terrain' : ChTerrain) :
  m_vehicle b = Some v →
  m_powertrain b = Some p →
  let p1 := Powertrain_Synchronize time throttle (GetDriveshaftSpeed v) p in
  let v1 := Vehicle_Synchronize time steering braking (GetOutputTorque p) terrain v in
  let p2 := Powertrain_Advance step p1 in
  let v2 := Vehicle_Advance step v1 in
  (b1 ← Synchronize time steering braking throttle terrain b; m_vehicle b1) = Some v1 ∧
  (b1 ← Synchronize time steering braking throttle terrain b; m_powertrain b1) = Some p1 ∧
  (∀ other_throttle,
     (b1 ← Synchronize time steering braking other_throttle terrain b; m_vehicle b1)
     = Some v1) ∧
  (b3 ← run [CallSynchronize time steering braking throttle terrain;
             CallAdvance step;
             CallSynchronize time' steering' braking' throttle' terrain'] b;
   m_vehicle b3)
  = Some (Vehicle_Synchronize time' steering' braking' (GetOutputTorque p2) terrain' v2).
Proof.
  intros Hv Hp p1 v1 p2 v2.
  assert (Hsync : ∀ th, Synchronize time steering braking th terrain b =
            Some (with_subsystems v1
                    (Powertrain_Synchronize time th (GetDriveshaftSpeed v) p)
                    (m_tire_mass b) b)).
  { intros th. apply Synchronize_eq; assumption. }
  repeat split.
  - rewrite Hsync. reflexivity.
  - rewrite Hsync. reflexivity.
  - intros th. rewrite Hsync. reflexivity.
  - cbn [run call]. rewrite Hsync. cbn [mbind option_bind].
    rewrite (Advance_eq step _ v1 p1) by reflexivity. cbn [mbind option_bind].
    rewrite (Synchronize_eq _ _ _ _ _ _ v2 p2) by reflexivity.
    reflexivity.
Qed.

(** C2, as the code has it. [Advance] does not look for a [Synchronize]
    before it: on an assembly whose subsystems exist it always advances the
    powertrain and then the vehicle by [step], and every sequence of
    [Synchronize] and [Advance] calls, in whatever order, runs to its end. *)
Theorem Advance_never_rejects (b : CityBus) (v : Vehicle) (p : Powertrain)
    (step : double) (cs : list Call) :
  m_vehicle b = Some v →
  m_powertrain b = Some p →
  Advance step b =
    Some (with_subsystems (Vehicle_Advance step v) (Powertrain_Advance step p)
            (m_tire_mass b) b) ∧
  is_Some (run cs b).
Proof.
  intros Hv Hp. split.
  - apply Advance_eq; assumption.
  - destruct (run_assembled cs b) as (b' & Hrun & _).
    + split; eauto.
    + eauto.
Qed.

End AssemblyFacts.

Section InitializeFacts.

Context `{Collaborators}.

Lemma gt_unset : gt (-1)%float 0%float = false.
Proof. reflexivity. Qed.

Lemma apply_vehicle_step_off (b : CityBus) (c : Chassis) :
  gt (m_vehicle_step_size b) 0%float = false → apply_vehicle_step b c = c.
Proof. intros Hoff. unfold apply_vehicle_step. rewrite Hoff. reflexivity. Qed.

Lemma apply_vehicle_step_on (b : CityBus) (c : Chassis) :
  gt (m_vehicle_step_size b) 0%float = true →
  apply_vehicle_step b c = Vehicle_SetStepsize (m_vehicle_step_size b) c.
Proof. intros Hon. unfold apply_vehicle_step. rewrite Hon. reflexivity. Qed.

Lemma step_wheel_off (b : CityBus) (ws : list ChWheel) :
  gt (m_tire_step_size b) 0%float = false → mapM (step_wheel b) ws = Some ws.
Proof.
  intros Hoff. induction ws as [|w ws IH]; [reflexivity|].
  rewrite mapM_cons_unfold, IH. unfold step_wheel. rewrite Hoff. reflexivity.
Qed.

Lemma apply_tire_step_off (b : CityBus) (v : Vehicle) :
  gt (m_tire_step_size b) 0%float = false → apply_tire_step b v = Some v.
Proof.
  intros Hoff. unfold apply_tire_step.
  assert (Haxles : ∀ axles : list ChAxle,
            mapM (λ axle, mkAxle <$> mapM (step_wheel b) (m_wheels axle)) axles
            = Some axles).
  { induction axles as [|[ws] axles IH]; [reflexivity|].
    rewrite mapM_cons_unfold. cbn [m_wheels].
    rewrite step_wheel_off by exact Hoff.
    rewrite IH. reflexivity. }
  rewrite Haxles. destruct v; reflexivity.
Qed.

(** With a positive tire step and a tire on every wheel, the inner loop
    sets the step of every tire of an axle. *)
Lemma step_wheel_on (b : CityBus) (ws : list ChWheel) :
  gt (m_tire_step_size b) 0%float = true →
  Forall (λ w, is_Some (m_tire w)) ws →
  ∃ ws', mapM (step_wheel b) ws = Some ws' ∧
         m_tire <$> ws' =
           (λ w, Tire_SetStepsize (m_tire_step_size b) <$> m_tire w) <$> ws.
Proof.
  intros Hon. induction 1 as [|w ws [t Ht] _ (ws' & Hws' & Htires)].
  - exists []. split; reflexivity.
  - exists (mkWheel (Some (Tire_SetStepsize (m_tire_step_size b) t)) :: ws').
    split.
    + rewrite mapM_cons_unfold, Hws'. unfold step_wheel.
      rewrite Hon, Ht. reflexivity.
    + cbn [fmap list_fmap]. cbn [fmap list_fmap] in Htires.
      rewrite Htires, Ht. reflexivity.
Qed.

Lemma apply_tire_step_on (b : CityBus) (v : Vehicle) :
  gt (m_tire_step_size b) 0%float = true →
  Forall is_Some (tires v) →
  ∃ v', apply_tire_step b v = Some v' ∧ body v' = body v ∧
        tires v' =
          (λ tire : option Tire, Tire_SetStepsize (m_tire_step_size b) <$> tire)
            <$> tires v.
Proof.
  intros Hon. destruct v as [c axles]. unfold tires, apply_tire_step.
  cbn [m_axles body]. intros Hall.
  assert (Haxles : ∃ axles',
            mapM (λ axle, mkAxle <$> mapM (step_wheel b) (m_wheels axle)) axles
            = Some axles' ∧
            (a ← axles'; m_tire <$> m_wheels a) =
            (λ tire : option Tire, Tire_SetStepsize (m_tire_step_size b) <$> tire)
              <$> (a ← axles; m_tire <$> m_wheels a)).
  { induction axles as [|[ws] axles IH].
    - exists []. split; reflexivity.
    - cbn [mbind list_bind m_wheels] in Hall.
      apply Forall_app in Hall as [Hws Hrest].
      destruct (IH Hrest) as (axles' & Haxles' & Htires').
      destruct (step_wheel_on b ws Hon) as (ws' & Hws' & Htires).
      { rewrite Forall_fmap in Hws. exact Hws. }
      exists (mkAxle ws' :: axles'). split.
      + rewrite mapM_cons_unfold. cbn [m_wheels].
        rewrite Hws', Haxles'. reflexivity.
      + cbn [mbind list_bind m_wheels]. rewrite fmap_app, Htires', Htires.
        f_equal. rewrite <- list_fmap_compose. reflexivity. }
  destruct Haxles as (axles' & Haxles' & Htires').
  exists (mkVehicle c axles'). rewrite Haxles'. repeat split. exact Htires'.
Qed.

(** With a tire step above zero the loops over the wheels are the loops
    that call [SetStepsize] on the tire of every wheel. *)
Lemma apply_tire_step_on_eq (b : CityBus) (v : Vehicle) :
  gt (m_tire_step_size b) 0%float = true →
  apply_tire_step b v = for_each_tire (Tire_SetStepsize (m_tire_step_size b)) v.
Proof.
  intros Hon. unfold apply_tire_step, for_each_tire.
  assert (Hwheels : ∀ ws : list ChWheel,
            mapM (step_wheel b) ws
            = mapM (λ wheel, tire ← m_tire wheel;
                             Some (mkWheel (Some (Tire_SetStepsize (m_tire_step_size b) tire))))
                ws).
  { induction ws as [|w ws IH]; [reflexivity|].
    rewrite !mapM_cons_unfold, IH. unfold step_wheel. rewrite Hon. reflexivity. }
  assert (Haxles : ∀ axles : list ChAxle,
            mapM (λ axle, mkAxle <$> mapM (step_wheel b) (m_wheels axle)) axles
            = mapM (λ axle,
                  mkAxle <$> mapM (λ wheel, tire ← m_tire wheel;
                                     Some (mkWheel (Some (Tire_SetStepsize
                                                            (m_tire_step_size b) tire))))
                               (m_wheels axle))
                axles).
  { induction axles as [|axle axles IH]; [reflexivity|].
    rewrite !mapM_cons_unfold, IH, Hwheels. reflexivity. }
  rewrite Haxles. reflexivity.
Qed.

(** [Initialize] with the two tests of the step sizes decided. *)
Lemma Initialize_steps_decided (b : CityBus) :
  Initialize b =
    (vehicle ← apply_drag b
       (if gt (m_vehicle_step_size b) 0%float
        then Vehicle_SetStepsize (m_vehicle_step_size b) (create_vehicle b)
        else create_vehicle b);
     let '(vehicle, powertrain) := create_powertrain vehicle in
     '(v, tire_mass) ← create_tires b (mkVehicle vehicle bare_axles);
     v ← (if gt (m_tire_step_size b) 0%float
          then for_each_tire (Tire_SetStepsize (m_tire_step_size b)) v
          else Some v);
     Some (with_subsystems v powertrain tire_mass b)).
Proof.
  unfold Initialize, apply_vehicle_step.
  destruct (apply_drag b _) as [c|]; [|reflexivity].
  cbn [mbind option_bind].
  destruct (create_powertrain c) as [c' p].
  destruct (create_tires b (mkVehicle c' bare_axles)) as [[v m]|]; [|reflexivity].
  cbn [mbind option_bind].
  destruct (gt (m_tire_step_size b) 0%float) eqn:Htire.
  - rewrite apply_tire_step_on_eq by exact Htire. reflexivity.
  - rewrite apply_tire_step_off by exact Htire. reflexivity.
Qed.

(** C3, as the code has it. [Initialize] refuses no step size and changes
    none. Given a vehicle step [hv] and a tire step [ht], it builds the
    chassis, the powertrain and the tires as it does for any other step
    sizes, and completes or fails as it does for them. A vehicle step that
    is not above zero leads to no call of [SetStepsize] on the vehicle, a
    tire step that is not above zero to none on a tire: vehicle and tires
    keep the step they were constructed with, as they do with the value
    [-1] of the constructors. A vehicle step above zero is set on the
    vehicle, once, before drag and powertrain; a tire step above zero is set
    on the tire of every wheel, after the tires were created. The step
    sizes stored in the assembly are afterwards what they were. *)
Theorem Initialize_step_sizes (b : CityBus) (hv ht : double) :
  let b0 := SetTireStepSize ht (SetVehicleStepSize hv b) in
  let assemble (chassis : Chassis) (tire_loop : Vehicle → option Vehicle)
      : option CityBus :=
    chassis ← apply_drag b chassis;
    let '(chassis, powertrain) := create_powertrain chassis in
    '(v, tire_mass) ← create_tires b (mkVehicle chassis bare_axles);
    v ← tire_loop v;
    Some (with_subsystems v powertrain tire_mass b0) in
  (gt hv 0%float = false → gt ht 0%float = false →
     Initialize b0 = assemble (create_vehicle b) Some) ∧
  (gt hv 0%float = true → gt ht 0%float = false →
     Initialize b0 = assemble (Vehicle_SetStepsize hv (create_vehicle b)) Some) ∧
  (gt hv 0%float = false → gt ht 0%float = true →
     Initialize b0
     = assemble (create_vehicle b) (for_each_tire (Tire_SetStepsize ht))) ∧
  (gt hv 0%float = true → gt ht 0%float = true →
     Initialize b0
     = assemble (Vehicle_SetStepsize hv (create_vehicle b))
         (for_each_tire (Tire_SetStepsize ht))) ∧
  (gt hv 0%float = false → gt ht 0%float = false →
     Initialize b0
     = SetTireStepSize ht ∘ SetVehicleStepSize hv
         <$> Initialize (SetTireStepSize (-1)%float (SetVehicleStepSize (-1)%float b))) ∧
  (∀ b', Initialize b0 = Some b' →
     m_vehicle_step_size b' = hv ∧ m_tire_step_size b' = ht).
Proof.
  cbv zeta.
  assert (Hdecided :
    ∀ hv' ht' : double,
      Initialize (SetTireStepSize ht' (SetVehicleStepSize hv' b)) =
        (vehicle ← apply_drag b
           (if gt hv' 0%float then Vehicle_SetStepsize hv' (create_vehicle b)
            else create_vehicle b);
         let '(vehicle, powertrain) := create_powertrain vehicle in
         '(v, tire_mass) ← create_tires b (mkVehicle vehicle bare_axles);
         v ← (if gt ht' 0%float then for_each_tire (Tire_SetStepsize ht') v else Some v);
         Some (with_subsystems v powertrain tire_mass
                 (SetTireStepSize ht' (SetVehicleStepSize hv' b))))).
  { intros hv' ht'. apply Initialize_steps_decided. }
  split; [|split; [|split; [|split; [|split]]]].
  - intros Hv Ht. rewrite Hdecided, Hv, Ht. reflexivity.
  - intros Hv Ht. rewrite Hdecided, Hv, Ht. reflexivity.
  - intros Hv Ht. rewrite Hdecided, Hv, Ht. reflexivity.
  - intros Hv Ht. rewrite Hdecided, Hv, Ht. reflexivity.
  - intros Hv Ht. rewrite !Hdecided, Hv, Ht, gt_unset.
    destruct (apply_drag b (create_vehicle b)) as [c|]; [|reflexivity].
    cbn [mbind option_bind].
    destruct (create_powertrain c) as [c' p].
    destruct (create_tires b (mkVehicle c' bare_axles)) as [[v m]|]; reflexivity.
  - intros b' Hinit. rewrite Hdecided in Hinit.
    destruct (apply_drag b _) as [c|]; [|discriminate Hinit].
    cbn [mbind option_bind] in Hinit.
    destruct (create_powertrain c) as [c' p].
    destruct (create_tires b (mkVehicle c' bare_axles)) as [[v m]|];
      [|discriminate Hinit].
    cbn [mbind option_bind] in Hinit.
    destruct (if gt ht 0%float then _ else _) as [v'|]; [|discriminate Hinit].
    injection Hinit as <-. split; reflexivity.
Qed.

End InitializeFacts.

Section TotalMass.

Context `{Collaborators}.

Lemma GetTotalMass_eq (b : CityBus) (v : Vehicle) (tire_mass : double) :
  m_vehicle b = Some v → m_tire_mass b = Some tire_mass →
  GetTotalMass b = Some (GetVehicleMass v + 4 * tire_mass)%float.
Proof. intros Hv Hm. unfold GetTotalMass. rewrite Hv, Hm. reflexivity. Qed.

(** For a tire model with a [case], the initialized assembly has a tire on
    each of its four wheels, all four created by the same constructor,
    [m_tire_mass] is the mass the front left one reports, and the total mass
    is the vehicle mass plus four times that. *)
Lemma GetTotalMass_with_tires (b b' : CityBus) :
  has_tire_case (m_tireType b) = true →
  Initialize b = Some b' →
  ∃ v step,
    let made name := step (Tire_Initialize (new_tire (m_tireType b) name)) in
    let tire_mass := ReportMass (Tire_Initialize (new_tire (m_tireType b) "FL"%string)) in
    m_vehicle b' = Some v ∧
    tires v = [Some (made "FL"%string); Some (made "FR"%string);
               Some (made "RL"%string); Some (made "RR"%string)] ∧
    m_tire_mass b' = Some tire_mass ∧
    GetTotalMass b' = Some (GetVehicleMass v + 4 * tire_mass)%float.
Proof.
  intros Hcase Hinit. unfold Initialize in Hinit.
  destruct (apply_drag b _) as [c|]; [|discriminate].
  cbn [mbind option_bind] in Hinit.
  destruct (create_powertrain c) as [c' p].
  destruct (gt (m_tire_step_size b) 0%float) eqn:Hstep.
  - exists (mkVehicle c'
              [mkAxle [mkWheel (Some (Tire_SetStepsize (m_tire_step_size b)
                                        (Tire_Initialize (new_tire (m_tireType b) "FL"%string))));
                       mkWheel (Some (Tire_SetStepsize (m_tire_step_size b)
                                        (Tire_Initialize (new_tire (m_tireType b) "FR"%string))))];
               mkAxle [mkWheel (Some (Tire_SetStepsize (m_tire_step_size b)
                                        (Tire_Initialize (new_tire (m_tireType b) "RL"%string))));
                       mkWheel (Some (Tire_SetStepsize (m_tire_step_size b)
                                        (Tire_Initialize (new_tire (m_tireType b) "RR"%string))))]]),
           (Tire_SetStepsize (m_tire_step_size b)).
    unfold create_tires, apply_tire_step, step_wheel in Hinit.
    rewrite Hstep in Hinit.
    destruct (m_tireType b); try discriminate Hcase;
      cbn in Hinit; injection Hinit as <-; repeat split.
  - exists (mkVehicle c'
              [mkAxle [mkWheel (Some (Tire_Initialize (new_tire (m_tireType b) "FL"%string)));
                       mkWheel (Some (Tire_Initialize (new_tire (m_tireType b) "FR"%string)))];
               mkAxle [mkWheel (Some (Tire_Initialize (new_tire (m_tireType b) "RL"%string)));
                       mkWheel (Some (Tire_Initialize (new_tire (m_tireType b) "RR"%string)))]]),
           (λ tire, tire).
    unfold create_tires, apply_tire_step, step_wheel in Hinit.
    rewrite Hstep in Hinit.
    destruct (m_tireType b); try discriminate Hcase;
      cbn in Hinit; injection Hinit as <-; repeat split.
Qed.

(** C4, at the inputs where the code departs from it. For each tire model without a
    [case], [Initialize] on a fresh assembly completes, no wheel gets a tire
    and nothing is ever assigned to [m_tire_mass], so that the sum
    [GetTotalMass] returns is made from a member without a value. *)
Theorem GetTotalMass_without_tire_case :
  Forall (λ model,
    ∃ b' v,
      Initialize (SetTireType model new_CityBus) = Some b' ∧
      m_vehicle b' = Some v ∧
      tires v = [None; None; None; None] ∧
      m_tire_mass b' = None ∧
      GetTotalMass b' = None) models_without_case.
Proof.
  unfold models_without_case.
  repeat apply Forall_cons_2; try apply Forall_nil_2.
  all: unfold Initialize; cbn [apply_drag SetTireType new_CityBus m_apply_drag];
    cbn [mbind option_bind];
    destruct (create_powertrain _) as [c p]; cbn;
    eexists _, _; repeat split.
Qed.

End TotalMass.

(** *** The small assembly at work *)

#[local] Existing Instance toy_parts.
#[local] Existing Instance toy.

#[local] Open Scope float_scope.

Example Initialize_new_CityBus : Initialize new_CityBus = Some ready_bus.
Proof. reflexivity. Qed.

Example GetTotalMass_ready_bus : GetTotalMass ready_bus = Some 13128%float.
Proof. reflexivity. Qed.

(** Full throttle in the first tick: the vehicle gets the torque 0 that the
    powertrain had before, and the torque 1024 of this tick only with the
    second [Synchronize]. *)
Example torque_arrives_one_tick_late :
  (b ← Synchronize 0 0 0 1 tt ready_bus; c_torque ∘ body <$> m_vehicle b)
    = Some 0%float ∧
  (b ← Synchronize 0 0 0 1 tt ready_bus; GetOutputTorque <$> m_powertrain b)
    = Some 1024%float ∧
  (b ← run [CallSynchronize 0 0 0 1 tt; CallAdvance 0.5; CallSynchronize 0.5 0 0 1 tt]
         ready_bus;
   c_torque ∘ body <$> m_vehicle b)
    = Some 1024%float.
Proof. repeat split. Qed.

Lemma Synchronize_torque_one_step_behind_witness :
  m_vehicle ready_bus = Some ready_vehicle ∧
  m_powertrain ready_bus = Some ready_powertrain ∧
  (b ← run [CallSynchronize 0 0 0 1 tt; CallAdvance 0.5; CallSynchronize 0.5 0 0 1 tt]
         ready_bus;
   m_vehicle b)
  = Some (Vehicle_Synchronize 0.5 0 0
            (GetOutputTorque
               (Powertrain_Advance 0.5
                  (Powertrain_Synchronize 0 1 (GetDriveshaftSpeed ready_vehicle)
                     ready_powertrain)))
            tt
            (Vehicle_Advance 0.5
               (Vehicle_Synchronize 0 0 0 (GetOutputTorque ready_powertrain) tt
                  ready_vehicle))).
Proof.
  split; [reflexivity|]. split; [reflexivity|].
  pose proof (@Synchronize_torque_one_step_behind toy_parts toy ready_bus ready_vehicle
                ready_powertrain 0 0 0 1 tt 0.5 0.5 0 0 1 tt eq_refl eq_refl) as Hlag.
  cbv zeta in Hlag. destruct Hlag as (_ & _ & _ & Hnext). exact Hnext.
Defined.

Lemma Advance_never_rejects_witness :
  m_vehicle ready_bus = Some ready_vehicle ∧
  m_powertrain ready_bus = Some ready_powertrain ∧
  Advance 0.5 ready_bus =
    Some (with_subsystems (Vehicle_Advance 0.5 ready_vehicle)
            (Powertrain_Advance 0.5 ready_powertrain) (m_tire_mass ready_bus) ready_bus) ∧
  is_Some (run calls_out_of_order ready_bus).
Proof.
  split; [reflexivity|]. split; [reflexivity|].
  apply (@Advance_never_rejects toy_parts toy ready_bus ready_vehicle ready_powertrain 0.5
           calls_out_of_order eq_refl eq_refl).
Defined.

(** C2, as claimed, fails: on the initialized bus a first call of [Advance],
    with no [Synchronize] before it, is not refused; it runs and leaves a
    bus whose vehicle and powertrain were advanced once. *)
Lemma Advance_before_Synchronize_runs :
  assembled ready_bus ∧
  advance_before_synchronize false [CallAdvance 0.5] = true ∧
  run [CallAdvance 0.5] ready_bus ≠ None ∧
  (b ← run [CallAdvance 0.5] ready_bus; c_advanced ∘ body <$> m_vehicle b) = Some 1%nat ∧
  (b ← run [CallAdvance 0.5] ready_bus; p_advanced <$> m_powertrain b) = Some 1%nat.
Proof.
  split; [split; eexists; reflexivity|].
  split; [reflexivity|].
  split; [discriminate|].
  split; reflexivity.
Qed.

(** C3, as claimed, fails: a vehicle step of 0 and a tire step of -2, both
    set by hand, are not refused; [Initialize] completes and builds the
    vehicle, powertrain and tires it builds when no step size is set. *)
Lemma nonpositive_step_size_not_refused :
  gt 0 0 = false ∧
  gt (-2) 0 = false ∧
  Initialize (SetTireStepSize (-2) (SetVehicleStepSize 0 new_CityBus))
  = Some (SetTireStepSize (-2) (SetVehicleStepSize 0 ready_bus)) ∧
  Initialize new_CityBus = Some ready_bus.
Proof. repeat split. Qed.

(** The bus with a vehicle step of 0.25 and a tire step of 0.125 after
    [Initialize]: the chassis has the one, every tire the other. *)
Example Initialize_positive_steps :
  (b ← Initialize (SetTireStepSize 0.125 (SetVehicleStepSize 0.25 new_CityBus));
   v ← m_vehicle b;
   Some (c_step (body v), (λ tire : option ToyTire, t_step <$> tire) <$> tires v))
  = Some (0.25, [Some 0.125; Some 0.125; Some 0.125; Some 0.125]).
Proof. reflexivity. Qed.

Lemma Initialize_step_sizes_witness :
  gt 0 0 = false ∧
  gt (-2) 0 = false ∧
  gt 0.25 0 = true ∧
  gt 0.125 0 = true ∧
  Initialize (SetTireStepSize (-2) (SetVehicleStepSize 0 new_CityBus))
  = Some (SetTireStepSize (-2) (SetVehicleStepSize 0 ready_bus)) ∧
  Initialize (SetTireStepSize (-2) (SetVehicleStepSize 0 new_CityBus))
  = SetTireStepSize (-2) ∘ SetVehicleStepSize 0
      <$> Initialize (SetTireStepSize (-1) (SetVehicleStepSize (-1) new_CityBus)) ∧
  (b ← Initialize (SetTireStepSize 0.125 (SetVehicleStepSize 0.25 new_CityBus));
   v ← m_vehicle b;
   Some (c_step (body v), (λ tire : option ToyTire, t_step <$> tire) <$> tires v))
  = Some (0.25, [Some 0.125; Some 0.125; Some 0.125; Some 0.125]) ∧
  (b ← Initialize (SetTireStepSize (-2) (SetVehicleStepSize 0.25 new_CityBus));
   v ← m_vehicle b;
   Some (c_step (body v), (λ tire : option ToyTire, t_step <$> tire) <$> tires v))
  = Some (0.25, [Some toy_base_step; Some toy_base_step;
                 Some toy_base_step; Some toy_base_step]) ∧
  (b ← Initialize (SetTireStepSize 0.125 (SetVehicleStepSize 0 new_CityBus));
   v ← m_vehicle b;
   Some (c_step (body v), (λ tire : option ToyTire, t_step <$> tire) <$> tires v))
  = Some (toy_base_step, [Some 0.125; Some 0.125; Some 0.125; Some 0.125]).
Proof.
  pose proof (@Initialize_step_sizes toy_parts toy new_CityBus 0 (-2)) as Hoff.
  pose proof (@Initialize_step_sizes toy_parts toy new_CityBus 0.25 0.125) as Hon.
  pose proof (@Initialize_step_sizes toy_parts toy new_CityBus 0.25 (-2)) as Hvehicle.
  pose proof (@Initialize_step_sizes toy_parts toy new_CityBus 0 0.125) as Htire.
  cbv zeta in Hoff, Hon, Hvehicle, Htire.
  destruct Hoff as (Hoff & _ & _ & _ & Hunset & _).
  destruct Hon as (_ & _ & _ & Hon & _).
  destruct Hvehicle as (_ & Hvehicle & _).
  destruct Htire as (_ & _ & Htire & _).
  split; [reflexivity|]. split; [reflexivity|].
  split; [reflexivity|]. split; [reflexivity|].
  split; [exact (Hoff eq_refl eq_refl)|].
  split; [exact (Hunset eq_refl eq_refl)|].
  split; [rewrite (Hon eq_refl eq_refl); reflexivity|].
  split; [rewrite (Hvehicle eq_refl eq_refl); reflexivity|].
  rewrite (Htire eq_refl eq_refl). reflexivity.
Defined.

End BusFacts.

(** ** Sub-stepping *)

Module SubStepFacts.

Import SubStep.

#[local] Open Scope Q_scope.

Section IntegrationFacts.

Context {WheelState PowertrainState : Type}.

Variable tire_substep : Q → WheelState → WheelState.
Variable powertrain_step : Q → PowertrainState → PowertrainState.

#[local] Abbreviation Assembly := (@SubStep.Assembly WheelState PowertrainState).
#[local] Abbreviation advance_tire := (SubStep.advance_tire tire_substep).
#[local] Abbreviation Advance := (SubStep.Advance tire_substep powertrain_step).
#[local] Abbreviation Advance_times :=
  (SubStep.Advance_times tire_substep powertrain_step).

Lemma sub_step_count_multiple (t : Q) (m : nat) (outer : Q) :
  0 < t → outer == inject_Z (Z.of_nat m) * t → sub_step_count outer t = m.
Proof.
  intros Ht Houter. unfold sub_step_count.
  assert (Hratio : outer / t == inject_Z (Z.of_nat m)).
  { rewrite Houter. field. intros Hzero. rewrite Hzero in Ht.
    exact (Qlt_irrefl 0 Ht). }
  rewrite Hratio, Qceiling_Z. apply Nat2Z.id.
Qed.

Lemma foldl_replicate (f : Q → WheelState → WheelState) (t : Q) (m : nat) (w : WheelState) :
  foldl (λ w h, f h w) w (replicate m t) = Nat.iter m (f t) w.
Proof.
  revert w. induction m as [|m IH]; intros w; [reflexivity|].
  cbn [replicate foldl]. rewrite IH. symmetry. apply Nat.iter_succ_r.
Qed.

(** When the outer step is [m] tire steps, the tire takes exactly [m]
    sub-steps, each of one tire step: the last one is not shorter. *)
Lemma advance_tire_multiple (t : Q) (m : nat) (outer : Q) (w : WheelState) :
  0 < t → outer == inject_Z (Z.of_nat m) * t →
  advance_tire outer t w = Nat.iter m (tire_substep (Qred t)) w.
Proof.
  intros Ht Houter. unfold SubStep.advance_tire, sub_steps.
  rewrite (sub_step_count_multiple t m outer Ht Houter).
  destruct m as [|m]; [reflexivity|].
  rewrite foldl_app. cbn [foldl].
  rewrite (foldl_replicate (λ h, tire_substep (Qred h))).
  assert (Hlast : Qred (outer - inject_Z (Z.of_nat m) * t) = Qred t).
  { apply Qred_complete. rewrite Houter, Nat2Z.inj_succ.
    unfold Z.succ. rewrite inject_Z_plus. ring. }
  rewrite Hlast. reflexivity.
Qed.

Lemma iter_iter {A} (f : A → A) (n k : nat) (x : A) :
  Nat.iter n (Nat.iter k f) x = Nat.iter (n * k) f x.
Proof.
  induction n as [|n IH]; [reflexivity|].
  change (S n * k)%nat with (k + n * k)%nat.
  rewrite Nat.iter_add, <- IH. reflexivity.
Qed.

Lemma Advance_times_S (n : nat) (step : Q) (a : Assembly) :
  Advance_times (S n) step a = Advance step (Advance_times n step a).
Proof. reflexivity. Qed.

Lemma tireStep_Advance_times (n : nat) (step : Q) (a : Assembly) :
  tireStep (Advance_times n step a) = tireStep a.
Proof.
  induction n as [|n IH]; [reflexivity|].
  rewrite Advance_times_S. exact IH.
Qed.

Lemma wheels_Advance_times (n : nat) (step : Q) (a : Assembly) :
  wheels (Advance_times n step a)
  = Nat.iter n (advance_tire step (tireStep a)) <$> wheels a.
Proof.
  induction n as [|n IH].
  - cbn. symmetry. apply list_fmap_id.
  - rewrite Advance_times_S. unfold SubStep.Advance. cbn [wheels].
    rewrite IH, tireStep_Advance_times, <- list_fmap_compose. reflexivity.
Qed.

(** C5. With a positive tire step that divides the vehicle step, [N]
    calls of [Advance] with the vehicle step leave every wheel in the state
    in which one call with [N] times the vehicle step leaves it; each call
    integrates the powertrain once over its step and each tire over
    [ceil(outerStep / tireStep)] sub-steps. *)
Theorem Advance_sub_stepping_consistent
    (a : Assembly) (vehicleStep : Q) (k N : nat) :
  0 < tireStep a →
  vehicleStep == inject_Z (Z.of_nat k) * tireStep a →
  wheels (Advance_times N vehicleStep a)
  = wheels (Advance (inject_Z (Z.of_nat N) * vehicleStep) a) ∧
  (∀ outerStep,
     powertrain (Advance outerStep a) = powertrain_step (Qred outerStep) (powertrain a) ∧
     length (sub_steps outerStep (tireStep a))
     = Z.to_nat (Qceiling (outerStep / tireStep a))).
Proof.
  intros Ht Hk. split.
  - rewrite wheels_Advance_times. unfold SubStep.Advance. cbn [wheels].
    apply list_fmap_ext. intros _ w _.
    assert (Hinner : ∀ w', advance_tire vehicleStep (tireStep a) w'
                           = Nat.iter k (tire_substep (Qred (tireStep a))) w').
    { intros w'. apply advance_tire_multiple; assumption. }
    assert (Hiter : ∀ n w', Nat.iter n (advance_tire vehicleStep (tireStep a)) w'
                            = Nat.iter n (Nat.iter k (tire_substep (Qred (tireStep a)))) w').
    { induction n as [|n IH]; intros w'; [reflexivity|].
      rewrite !Nat.iter_succ, IH, Hinner. reflexivity. }
    rewrite Hiter, iter_iter.
    symmetry. apply advance_tire_multiple; [exact Ht|].
    rewrite Hk, Nat2Z.inj_mul, inject_Z_mult. ring.
  - intros outerStep. split; [reflexivity|].
    unfold sub_steps, sub_step_count.
    destruct (Z.to_nat (Qceiling (outerStep / tireStep a))) as [|m]; [reflexivity|].
    rewrite length_app, length_replicate. cbn. lia.
Qed.

End IntegrationFacts.

Lemma Advance_sub_stepping_consistent_witness :
  0 < tireStep four_wheels ∧
  (2 # 1000) == inject_Z (Z.of_nat 2) * tireStep four_wheels ∧
  wheels (Advance_times euler_wheel clock_powertrain 3 (2 # 1000) four_wheels)
  = wheels (Advance euler_wheel clock_powertrain
              (inject_Z (Z.of_nat 3) * (2 # 1000)) four_wheels).
Proof.
  assert (Hpos : 0 < tireStep four_wheels) by reflexivity.
  assert (Hdiv : (2 # 1000) == inject_Z (Z.of_nat 2) * tireStep four_wheels)
    by reflexivity.
  split; [exact Hpos|]. split; [exact Hdiv|].
  apply (Advance_sub_stepping_consistent euler_wheel clock_powertrain
           four_wheels (2 # 1000) 2 3 Hpos Hdiv).
Defined.

(** When the tire step does not divide the vehicle step the two runs do
    differ: with a tire step of 2 and a vehicle step of 3 each call takes a
    sub-step of 2 and one of 1, the single call over 6 takes three of 2. *)
Example sub_steps_when_not_dividing :
  sub_steps 3 2 = [2; 3 - inject_Z (Z.of_nat 1) * 2] ∧
  sub_steps 6 2 = [2; 2; 6 - inject_Z (Z.of_nat 2) * 2].
Proof. split; reflexivity. Qed.

End SubStepFacts.

(** ** The ACC path-follower driver *)

Module AccFacts.

Import Acc.

#[local] Open Scope Q_scope.

(** *** Ranges of the commands *)

Lemma clamp_bounds (lo hi x : Q) : lo <= hi → lo <= clamp lo hi x <= hi.
Proof.
  intros Hrange. unfold clamp.
  destruct (Qlt_le_dec x lo) as [Hlow|Hlow]; [lra|].
  destruct (Qlt_le_dec hi x) as [Hhigh|Hhigh]; lra.
Qed.

Lemma clamp_inside (lo hi x : Q) : lo <= x <= hi → clamp lo hi x = x.
Proof.
  intros [Hlow Hhigh]. unfold clamp.
  destruct (Qlt_le_dec x lo) as [Hlt|_]; [lra|].
  destruct (Qlt_le_dec hi x) as [Hgt|_]; [lra|reflexivity].
Qed.

Lemma pedals_bounds (acceleration : Q) :
  0 <= fst (pedals acceleration) <= 1 ∧
  0 <= snd (pedals acceleration) <= 1 ∧
  (fst (pedals acceleration) = 0 ∨ snd (pedals acceleration) = 0).
Proof.
  unfold pedals. destruct (Qlt_le_dec 0 acceleration) as [Hpos|Hneg]; cbn [fst snd].
  - pose proof (clamp_bounds 0 1 acceleration). repeat split; try lra. right. reflexivity.
  - pose proof (clamp_bounds 0 1 (- acceleration)). repeat split; try lra. left. reflexivity.
Qed.

(** The commands and the reported error of [Synchronize], in closed form. *)
Lemma Synchronize_commands (steering_error : list Path → nat → Q → OwnState → Q)
    (time : Q) (own : OwnState) (lead : option Q) (trigger : option Z) (c : Controller) :
  snd (fst (Synchronize steering_error time own lead trigger c))
  = mkCommands
      (clamp (-1) 1
         (fst (pid (steering_error (paths c) (active_path c) (look_ahead c) own)
                 (steering_loop c))))
      (fst (pedals (target_acceleration
                      (fst (pid (target_speed c - own_speed own) (speed_loop c))) lead c)))
      (snd (pedals (target_acceleration
                      (fst (pid (target_speed c - own_speed own) (speed_loop c))) lead c))).
Proof.
  unfold Synchronize. cbn [pid fst snd].
  destruct (pedals _) as [thr brk]. cbn [fst snd].
  destruct (mode c), trigger as [index|]; try reflexivity.
  destruct (changePath index _) as [c'' err]. reflexivity.
Qed.

(** C7. After every [Synchronize] the steering command is in [-1, 1], the
    throttle and the braking command are in [0, 1] and one of the two is
    0. The steering command is the output of the steering controller
    clamped, whatever that output was, and without a path switch asked for
    the call reports no error. *)
Theorem Synchronize_commands_in_range
    (steering_error : list Path → nat → Q → OwnState → Q)
    (time : Q) (own : OwnState) (lead : option Q) (trigger : option Z) (c : Controller) :
  let commands := snd (fst (Synchronize steering_error time own lead trigger c)) in
  -1 <= steering commands <= 1 ∧
  0 <= throttle commands <= 1 ∧
  0 <= braking commands <= 1 ∧
  (throttle commands = 0 ∨ braking commands = 0) ∧
  steering commands
  = clamp (-1) 1
      (fst (pid (steering_error (paths c) (active_path c) (look_ahead c) own)
              (steering_loop c))) ∧
  snd (Synchronize steering_error time own lead None c) = None.
Proof.
  intros commands. subst commands. rewrite Synchronize_commands. cbn [steering throttle braking].
  pose proof (pedals_bounds
                (target_acceleration
                   (fst (pid (target_speed c - own_speed own) (speed_loop c))) lead c))
    as (Hthr & Hbrk & Hone).
  split; [apply clamp_bounds; lra|].
  split; [exact Hthr|]. split; [exact Hbrk|]. split; [exact Hone|].
  split; [reflexivity|].
  unfold Synchronize. cbn [pid]. destruct (pedals _) as [thr brk].
  destruct (mode c); reflexivity.
Qed.

(** *** Path switches *)

Lemma in_range_spec (index : Z) (c : Controller) :
  in_range index c = true ↔ (0 ≤ index < Z.of_nat (length (paths c)))%Z.
Proof. unfold in_range. rewrite andb_true_iff, Z.leb_le, Z.ltb_lt. reflexivity. Qed.

Lemma in_range_false (index : Z) (c : Controller) :
  in_range index c = false ↔ ¬ (0 ≤ index < Z.of_nat (length (paths c)))%Z.
Proof. rewrite <- in_range_spec. destruct (in_range index c); intuition congruence. Qed.

Lemma changePath_out_of_range (index : Z) (c : Controller) :
  in_range index c = false → changePath index c = (c, Some OutOfRange).
Proof. intros Hout. unfold changePath. rewrite Hout. reflexivity. Qed.

Lemma changePath_same (c : Controller) :
  valid c → changePath (Z.of_nat (active_path c)) c = (c, None).
Proof.
  intros Hvalid. unfold changePath.
  assert (Hin : in_range (Z.of_nat (active_path c)) c = true).
  { apply in_range_spec. unfold valid in Hvalid. lia. }
  rewrite Hin, Z.eqb_refl. reflexivity.
Qed.

Lemma changePath_switch (index : Z) (c : Controller) :
  in_range index c = true → index ≠ Z.of_nat (active_path c) →
  changePath index c =
    ({| mode := mode c; paths := paths c; active_path := Z.to_nat index;
        speed_loop := speed_loop c;
        steering_loop := mkLoop (gains (steering_loop c)) fresh_memory;
        look_ahead := look_ahead c; target_speed := target_speed c;
        following_time := following_time c;
        min_following_distance := min_following_distance c;
        gap_gain := gap_gain c; lead_distance := lead_distance c |}, None).
Proof.
  intros Hin Hother. unfold changePath. rewrite Hin.
  destruct (Z.eqb_spec index (Z.of_nat (active_path c))) as [Heq|_];
    [contradiction|reflexivity].
Qed.

Lemma gains_after (errs : list Q) (l : Loop) : gains (after errs l) = gains l.
Proof.
  unfold after. revert l. induction errs as [|err errs IH]; intros l; [reflexivity|].
  cbn [foldl]. rewrite IH. reflexivity.
Qed.

(** C6. [changePath index] reports no error exactly when
    [0 <= index < pathCount]. Out of range it reports [OutOfRange] and
    leaves the controller as it was; in range it makes [index] the active
    path; with the index of the active path it changes nothing, and calling
    it a second time with the same index changes nothing more. *)
Theorem changePath_validates_index (index : Z) (c : Controller) :
  (snd (changePath index c) = None
     ↔ (0 ≤ index < Z.of_nat (length (paths c)))%Z) ∧
  (¬ (0 ≤ index < Z.of_nat (length (paths c)))%Z →
     changePath index c = (c, Some OutOfRange)) ∧
  ((0 ≤ index < Z.of_nat (length (paths c)))%Z →
     Z.of_nat (active_path (fst (changePath index c))) = index ∧
     paths (fst (changePath index c)) = paths c ∧
     valid (fst (changePath index c))) ∧
  (valid c → changePath (Z.of_nat (active_path c)) c = (c, None)) ∧
  fst (changePath index (fst (changePath index c))) = fst (changePath index c).
Proof.
  destruct (in_range index c) eqn:Hin.
  - pose proof (proj1 (in_range_spec index c) Hin) as Hrange.
    destruct (Z.eq_dec index (Z.of_nat (active_path c))) as [Hsame|Hother].
    + assert (Hvalid : valid c) by (unfold valid; lia).
      assert (Hcall : changePath index c = (c, None)).
      { rewrite Hsame. apply changePath_same, Hvalid. }
      rewrite !Hcall. cbn [fst snd]. rewrite Hcall. cbn [fst].
      repeat split; try tauto; try (symmetry; assumption).
      * intros _. apply changePath_same. assumption.
    + rewrite (changePath_switch index c Hin Hother). cbn [fst snd active_path paths].
      repeat split; try tauto.
      * rewrite Z2Nat.id; lia.
      * unfold valid. cbn [active_path paths]. lia.
      * apply changePath_same.
      * unfold changePath. unfold in_range. cbn [paths active_path].
        fold (in_range index c). rewrite Hin, Z2Nat.id, Z.eqb_refl by lia.
        reflexivity.
  - pose proof (proj1 (in_range_false index c) Hin) as Hrange.
    rewrite (changePath_out_of_range index c Hin). cbn [fst snd].
    rewrite (changePath_out_of_range index c Hin). cbn [fst].
    repeat split; try tauto; try discriminate.
    apply changePath_same.
Qed.

(** C8. A switch to another path resets the memory of the steering
    controller to its initial state and changes, besides the active path,
    nothing else: the gains of the steering controller and the whole speed
    controller are as before. Whatever errors the steering controller had
    seen, after the switch it answers a sequence of errors as a controller
    with the same gains that has seen none. *)
Theorem changePath_resets_steering_only
    (index : Z) (c : Controller) (g : Gains) (seen errs : list Q) :
  (0 ≤ index < Z.of_nat (length (paths c)))%Z →
  index ≠ Z.of_nat (active_path c) →
  steering_loop c = after seen (mkLoop g fresh_memory) →
  let c' := fst (changePath index c) in
  memory (steering_loop c') = fresh_memory ∧
  gains (steering_loop c') = gains (steering_loop c) ∧
  speed_loop c' = speed_loop c ∧
  c' = {| mode := mode c; paths := paths c; active_path := Z.to_nat index;
          speed_loop := speed_loop c;
          steering_loop := mkLoop (gains (steering_loop c)) fresh_memory;
          look_ahead := look_ahead c; target_speed := target_speed c;
          following_time := following_time c;
          min_following_distance := min_following_distance c;
          gap_gain := gap_gain c; lead_distance := lead_distance c |} ∧
  outputs errs (steering_loop c') = outputs errs (mkLoop g fresh_memory).
Proof.
  intros Hrange Hother Hseen c'. subst c'.
  rewrite (changePath_switch index c) by (try apply in_range_spec; assumption).
  cbn [fst steering_loop speed_loop memory gains].
  repeat split.
  rewrite Hseen, gains_after. reflexivity.
Qed.

(** *** The controller of rank 0 in the demo *)

Example demo_controller_built :
  match new_Controller MultiPath demo_paths 10 (12 # 10) 10 100 with
  | inl c =>
      SetLookAheadDistance 5
        (SetSteeringGains (4 # 10) (1 # 10) (2 # 10) (SetSpeedGains (4 # 10) 0 0 c))
      = demo_controller
  | inr _ => False
  end.
Proof. reflexivity. Qed.

Example one_point_path_refused :
  new_Controller SinglePath [mkPath [mkPoint 0 0 0] false] 10 (12 # 10) 10 100
  = inr DegeneratePath.
Proof. reflexivity. Qed.

(** Without a switch the history shows in the outputs. *)
Example outputs_depend_on_history :
  outputs [1] (steering_loop demo_controller_later)
  ≠ outputs [1] (mkLoop demo_gains fresh_memory).
Proof. vm_compute. discriminate. Qed.

(** The follower scenario of the spec: target speed 10, following time
    1.2, minimal distance 10, so a desired gap of 12; at speed 10 with the
    lead 11 ahead the driver brakes and gives no throttle. *)
Example follower_brakes_inside_gap :
  let commands :=
    snd (fst (Synchronize (λ _ _ _ _, 0) 0 (mkOwnState (mkPoint 0 0 0) 0 10)
                (Some 11) None demo_controller)) in
  desired_gap demo_controller == 12 ∧
  steering commands == 0 ∧ throttle commands = 0 ∧ braking commands == 1.
Proof. repeat split. Qed.

Lemma changePath_validates_index_witness :
  ¬ (0 ≤ 2 < Z.of_nat (length (paths demo_controller)))%Z ∧
  (0 ≤ 1 < Z.of_nat (length (paths demo_controller)))%Z ∧
  valid demo_controller ∧
  changePath 2 demo_controller = (demo_controller, Some OutOfRange) ∧
  Z.of_nat (active_path (fst (changePath 1 demo_controller))) = 1%Z ∧
  changePath (Z.of_nat (active_path demo_controller)) demo_controller
  = (demo_controller, None).
Proof.
  assert (Hout : ¬ (0 ≤ 2 < Z.of_nat (length (paths demo_controller)))%Z)
    by (cbn; lia).
  assert (Hin : (0 ≤ 1 < Z.of_nat (length (paths demo_controller)))%Z)
    by (cbn; lia).
  assert (Hvalid : valid demo_controller) by (unfold valid; cbn; lia).
  destruct (changePath_validates_index 2 demo_controller) as (_ & Hrefuse & _ & Hsame & _).
  destruct (changePath_validates_index 1 demo_controller) as (_ & _ & Hswitch & _ & _).
  split; [exact Hout|]. split; [exact Hin|]. split; [exact Hvalid|].
  split; [exact (Hrefuse Hout)|].
  split; [exact (proj1 (Hswitch Hin))|].
  exact (Hsame Hvalid).
Defined.

Lemma changePath_resets_steering_only_witness :
  (0 ≤ 1 < Z.of_nat (length (paths demo_controller_later)))%Z ∧
  1%Z ≠ Z.of_nat (active_path demo_controller_later) ∧
  steering_loop demo_controller_later = after [1; 2] (mkLoop demo_gains fresh_memory) ∧
  speed_loop (fst (changePath 1 demo_controller_later))
  = speed_loop demo_controller_later ∧
  outputs [1; 2] (steering_loop (fst (changePath 1 demo_controller_later)))
  = outputs [1; 2] (mkLoop demo_gains fresh_memory).
Proof.
  assert (Hin : (0 ≤ 1 < Z.of_nat (length (paths demo_controller_later)))%Z)
    by (cbn; lia).
  assert (Hother : 1%Z ≠ Z.of_nat (active_path demo_controller_later))
    by (cbn; lia).
  pose proof (changePath_resets_steering_only 1 demo_controller_later demo_gains
                [1; 2] [1; 2] Hin Hother eq_refl) as Hreset.
  cbv zeta in Hreset. destruct Hreset as (_ & _ & Hspeed & _ & Hrestart).
  split; [exact Hin|]. split; [exact Hother|]. split; [reflexivity|].
  split; [exact Hspeed|exact Hrestart].
Defined.

End AccFacts.

(** ** The simulation loop of the highway demo *)

Module HighwayFacts.

Import Highway.

Section LoopFacts.

Context {World : Type}.

Variable rank : Z.
Variable IsOk : World → bool.
Variable mpi_Advance : World → World.
Variable mpi_Synchronize : World → World.
Variable mpi_Update : World → World.
Variable GetChTime : World → double.
Variable driver_changePath : Z → World → World.

#[local] Abbreviation switch_due := (Highway.switch_due rank GetChTime).
#[local] Abbreviation loop_body :=
  (Highway.loop_body rank mpi_Advance mpi_Synchronize mpi_Update GetChTime
     driver_changePath).
#[local] Abbreviation simulation_loop :=
  (Highway.simulation_loop rank IsOk mpi_Advance mpi_Synchronize mpi_Update
     GetChTime driver_changePath).
#[local] Abbreviation after_ticks :=
  (Highway.after_ticks rank mpi_Advance mpi_Synchronize mpi_Update GetChTime
     driver_changePath).
#[local] Abbreviation replay :=
  (Highway.replay rank IsOk mpi_Advance mpi_Synchronize mpi_Update GetChTime
     driver_changePath).

Lemma ticks_completed_app (events later : list Event) :
  ticks_completed (events ++ later) = (ticks_completed events + ticks_completed later)%nat.
Proof. unfold ticks_completed. rewrite filter_app, length_app. reflexivity. Qed.

Lemma ticks_completed_loop_body (w : World) :
  ticks_completed (EvIsOk true :: snd (loop_body w)) = 1%nat.
Proof. unfold Highway.loop_body. destruct (switch_due _); reflexivity. Qed.

Lemma loop_body_events (w : World) :
  tick_events (EvIsOk true :: snd (loop_body w)).
Proof.
  unfold Highway.loop_body. destruct (switch_due _); cbn; constructor.
Qed.

Lemma simulation_loop_S (fuel : nat) (w : World) :
  simulation_loop (S fuel) w =
    if IsOk w
    then (fst (fst (simulation_loop fuel (fst (loop_body w)))),
          EvIsOk true :: snd (loop_body w)
            ++ snd (fst (simulation_loop fuel (fst (loop_body w)))),
          snd (simulation_loop fuel (fst (loop_body w))))
    else (w, [EvIsOk false], true).
Proof.
  cbn [Highway.simulation_loop]. destruct (IsOk w); [|reflexivity].
  destruct (loop_body w) as [w1 events]. cbn [fst snd].
  destruct (simulation_loop fuel w1) as [[w2 later] stopped]. reflexivity.
Qed.

Lemma simulation_loop_events (fuel : nat) (w : World) :
  run_events (snd (simulation_loop fuel w)) (snd (fst (simulation_loop fuel w))).
Proof.
  revert w. induction fuel as [|fuel IH]; intros w.
  - constructor.
  - rewrite simulation_loop_S. destruct (IsOk w); cbn [fst snd].
    + apply (run_tick (EvIsOk true :: snd (loop_body w))).
      * apply loop_body_events.
      * apply IH.
    + constructor.
Qed.

Lemma after_ticks_S (n : nat) (w : World) :
  after_ticks (S n) w = after_ticks n (fst (loop_body w)).
Proof. unfold Highway.after_ticks. rewrite Nat.iter_succ_r. reflexivity. Qed.

(** If the condition holds before each of the first [n] ticks and fails
    after them, the loop is left after exactly [n] ticks, in the world they
    lead to, whenever the fuel allows for the [n + 1] tests. *)
Lemma simulation_loop_left (n fuel : nat) (w : World) :
  (∀ i, (i < n)%nat → IsOk (after_ticks i w) = true) →
  IsOk (after_ticks n w) = false →
  (n < fuel)%nat →
  fst (fst (simulation_loop fuel w)) = after_ticks n w ∧
  snd (simulation_loop fuel w) = true ∧
  ticks_completed (snd (fst (simulation_loop fuel w))) = n.
Proof.
  revert fuel w. induction n as [|n IH]; intros fuel w Hok Hstop Hfuel.
  - destruct fuel as [|fuel]; [lia|].
    rewrite simulation_loop_S. cbn in Hstop. rewrite Hstop. repeat split.
  - destruct fuel as [|fuel]; [lia|].
    rewrite simulation_loop_S.
    assert (Hfirst : IsOk w = true) by (apply (Hok 0%nat); lia).
    rewrite Hfirst. cbn [fst snd].
    destruct (IH fuel (fst (loop_body w))) as (Hworld & Hstopped & Hcount).
    + intros i Hi. rewrite <- after_ticks_S. apply Hok. lia.
    + rewrite <- after_ticks_S. exact Hstop.
    + lia.
    + rewrite after_ticks_S. split; [exact Hworld|]. split; [exact Hstopped|].
      change (EvIsOk true :: ?events ++ ?later)
        with ((EvIsOk true :: events) ++ later).
      rewrite ticks_completed_app, ticks_completed_loop_body, Hcount. reflexivity.
Qed.

Lemma loop_body_eq (w : World) :
  let synced := mpi_Synchronize (mpi_Advance w) in
  loop_body w =
    (mpi_Update (if switch_due synced then driver_changePath 1 synced else synced),
     [EvAdvance; EvSynchronize]
       ++ (if switch_due synced then [EvChangePath 1] else [])
       ++ [EvUpdate]).
Proof. cbv zeta. unfold Highway.loop_body. destruct (switch_due _); reflexivity. Qed.

Lemma replay_app (events later : list Event) (w : World) :
  replay (events ++ later) w = w ← replay events w; replay later w.
Proof.
  revert w. induction events as [|e events IH]; intros w; [reflexivity|].
  cbn [app Highway.replay]. destruct (Highway.replay_event _ _ _ _ _ _ _ e w) as [w1|].
  - cbn [mbind option_bind]. apply IH.
  - reflexivity.
Qed.

(** The events of one round of the body are the calls it makes, in the
    order in which it makes them. *)
Lemma replay_loop_body (w : World) :
  replay (snd (loop_body w)) w = Some (fst (loop_body w)).
Proof.
  rewrite loop_body_eq. cbv zeta. cbn [fst snd].
  destruct (switch_due (mpi_Synchronize (mpi_Advance w))) eqn:Hdue.
  - cbn. unfold Highway.switch_due in Hdue |- *. rewrite Hdue. reflexivity.
  - reflexivity.
Qed.

Lemma replay_simulation_loop (fuel : nat) (w : World) :
  replay (snd (fst (simulation_loop fuel w))) w
  = Some (fst (fst (simulation_loop fuel w))).
Proof.
  revert w. induction fuel as [|fuel IH]; intros w; [reflexivity|].
  rewrite simulation_loop_S. destruct (IsOk w) eqn:Hok; cbn [fst snd].
  - cbn [Highway.replay Highway.replay_event]. rewrite Hok. cbn [Bool.eqb mbind option_bind].
    rewrite replay_app, replay_loop_body. cbn [mbind option_bind]. apply IH.
  - cbn [Highway.replay Highway.replay_event]. rewrite Hok. reflexivity.
Qed.

(** C9, as the code has it. One round of the loop body calls [Advance],
    then [Synchronize], then, on rank 0 and with the clock that
    [Synchronize] left within the tolerance of 6, [changePath(1)], then
    [Update]: the world it returns is [Update] of ([changePath(1)] of)
    [Synchronize] of [Advance] of the world it is given. A whole run is a
    sequence of such rounds, each after a test of [IsOk] that held, and
    ends with the test that fails; the events of the run are the calls that
    were made, in their order: made again one by one on the world at
    the start, with every test of [IsOk] giving the recorded answer, they
    lead to the world of the end. The loop goes on until [IsOk] fails,
    which it finds out only between two rounds. *)
Theorem simulation_loop_phases (n fuel : nat) (w : World) :
  (∀ w', let synced := mpi_Synchronize (mpi_Advance w') in
         loop_body w' =
           (mpi_Update (if switch_due synced then driver_changePath 1 synced else synced),
            [EvAdvance; EvSynchronize]
              ++ (if switch_due synced then [EvChangePath 1] else [])
              ++ [EvUpdate])) ∧
  run_events (snd (simulation_loop fuel w)) (snd (fst (simulation_loop fuel w))) ∧
  replay (snd (fst (simulation_loop fuel w))) w
    = Some (fst (fst (simulation_loop fuel w))) ∧
  ((∀ i, (i < n)%nat → IsOk (after_ticks i w) = true) →
   IsOk (after_ticks n w) = false →
   (n < fuel)%nat →
   fst (fst (simulation_loop fuel w)) = after_ticks n w ∧
   snd (simulation_loop fuel w) = true ∧
   ticks_completed (snd (fst (simulation_loop fuel w))) = n).
Proof.
  split; [apply loop_body_eq|].
  split; [apply simulation_loop_events|].
  split; [apply replay_simulation_loop|].
  apply simulation_loop_left.
Qed.

End LoopFacts.

(** C9, as claimed, fails in its last part. In this run the manager and
    the driver record the calls they receive: in the second tick, at time
    6, the driver receives [changePath(1)] after the manager received
    [Synchronize] and before it receives [Update], inside the tick and not
    at its boundary. *)
Lemma changePath_inside_tick :
  calls (fst (fst (toy_loop 5 toy_start))) =
    [EvAdvance; EvSynchronize; EvUpdate;
     EvAdvance; EvSynchronize; EvChangePath 1; EvUpdate;
     EvAdvance; EvSynchronize; EvUpdate] ∧
  switch_inside_tick false (calls (fst (fst (toy_loop 5 toy_start)))) = true ∧
  snd (fst (toy_loop 5 toy_start)) =
    [EvIsOk true; EvAdvance; EvSynchronize; EvUpdate;
     EvIsOk true; EvAdvance; EvSynchronize; EvChangePath 1; EvUpdate;
     EvIsOk true; EvAdvance; EvSynchronize; EvUpdate;
     EvIsOk false] ∧
  path (fst (fst (toy_loop 5 toy_start))) = 1%Z.
Proof. repeat split. Qed.

Lemma simulation_loop_phases_witness :
  (∀ i, (i < 3)%nat → toy_IsOk (toy_after i toy_start) = true) ∧
  toy_IsOk (toy_after 3 toy_start) = false ∧
  (3 < 5)%nat ∧
  fst (fst (toy_loop 5 toy_start)) = toy_after 3 toy_start ∧
  snd (toy_loop 5 toy_start) = true ∧
  ticks_completed (snd (fst (toy_loop 5 toy_start))) = 3%nat.
Proof.
  assert (Hok : ∀ i, (i < 3)%nat → toy_IsOk (toy_after i toy_start) = true).
  { intros i Hi.
    destruct i as [|[|[|i]]]; [reflexivity|reflexivity|reflexivity|lia]. }
  assert (Hstop : toy_IsOk (toy_after 3 toy_start) = false) by reflexivity.
  assert (Hfuel : (3 < 5)%nat) by lia.
  destruct (simulation_loop_phases 0 toy_IsOk toy_Advance toy_Synchronize toy_Update
              clock toy_changePath 3 5 toy_start) as (_ & _ & _ & Hleft).
  split; [exact Hok|]. split; [exact Hstop|]. split; [exact Hfuel|].
  exact (Hleft Hok Hstop Hfuel).
Defined.

End HighwayFacts.

(** ** ChAssetLevel: a level filled asset by asset *)

Module LevelBuildFacts.

Import AssetLevel AssetLevelFacts LevelBuild.

Section BuildFacts.

Context {ChAsset ChFrame : Type}.

#[local] Abbreviation ptr := (@shared_ptr ChAsset).
#[local] Abbreviation level := (@ChAssetLevel ChAsset ChFrame).

Lemma assets_AddAssets (ps : list ptr) (lv : level) :
  assets (AddAssets ps lv) = assets lv ++ ps.
Proof.
  unfold AddAssets. revert lv. induction ps as [|p ps IH]; intros lv.
  - cbn. rewrite app_nil_r. reflexivity.
  - cbn [foldl]. rewrite IH. cbn [AddAsset assets].
    rewrite <- app_assoc. reflexivity.
Qed.

Lemma levelframe_AddAssets (ps : list ptr) (lv : level) :
  levelframe (AddAssets ps lv) = levelframe lv.
Proof.
  unfold AddAssets. revert lv. induction ps as [|p ps IH]; intros lv; [reflexivity|].
  cbn [foldl]. rewrite IH. reflexivity.
Qed.

(** A level that was constructed and then given the pointers [ps] one by
    one holds exactly them, in the order given, under the frame it was
    constructed with: [GetAssetN i] returns the pointer added as number [i]
    and an empty pointer from the number of pointers on, and [GetAssets]
    has as many entries as there were calls of [AddAsset]. *)
Theorem GetAssetN_after_AddAssets (CSYSNORM : ChFrame) (ps : list ptr) (i : nat) :
  let lv : level := AddAssets ps (new_ChAssetLevel CSYSNORM) in
  GetAssetN (N.of_nat i) lv = Some (default null_ptr (ps !! i), lv) ∧
  GetAssets lv = ps ∧
  size (GetAssets lv) = N.of_nat (length ps) ∧
  GetFrame lv = CSYSNORM.
Proof.
  intros lv.
  assert (Hassets : assets lv = ps).
  { subst lv. rewrite assets_AddAssets. reflexivity. }
  split; [|split; [exact Hassets|split]].
  - destruct (ps !! i) as [p|] eqn:Hp; cbn [default].
    + apply GetAssetN_in_range. unfold index.
      rewrite Hassets, Nat2N.id. exact Hp.
    + apply GetAssetN_past_end. unfold size. rewrite Hassets.
      apply lookup_ge_None in Hp. lia.
  - unfold GetAssets. rewrite Hassets. reflexivity.
  - subst lv. unfold GetFrame. rewrite levelframe_AddAssets. reflexivity.
Qed.

(** [GetAssetN] returns an empty pointer in two cases that the caller
    cannot tell apart: [num] is not below the number of stored pointers, or
    the pointer stored at [num] is itself empty ([AddAsset] accepts empty
    pointers). *)
Theorem GetAssetN_empty_iff (num : N) (lv : level) :
  fst <$> GetAssetN num lv = Some null_ptr
  ↔ (size (assets lv) ≤ num)%N ∨ assets lv !! N.to_nat num = Some null_ptr.
Proof.
  destruct (N.lt_ge_cases num (size (assets lv))) as [Hlt|Hge].
  - destruct (size_lt_lookup _ _ Hlt) as [p Hp].
    rewrite (GetAssetN_in_range num lv p Hp). unfold index in Hp. cbn.
    rewrite Hp. split.
    + intros [= ->]. right. reflexivity.
    + intros [Hge|[= ->]]; [lia|reflexivity].
  - rewrite (GetAssetN_past_end num lv Hge). cbn. split; [|reflexivity].
    intros _. left. exact Hge.
Qed.

End BuildFacts.

(** An empty pointer stored in the middle and an index past the end give
    the same answer. *)
Example GetAssetN_empty_twice :
  fst <$> GetAssetN 1 demo_level = Some None ∧
  fst <$> GetAssetN 3 demo_level = Some None.
Proof. split; reflexivity. Qed.

End LevelBuildFacts.

(** ** CityBus: configuration, initialization and the loops over the tires *)

Module BusMoreFacts.

Import Bus BusFacts BusMore.

Section MoreFacts.

Context `{Collaborators}.
Context `{!TireVisualization}.

(** *** Assemblies straight from a constructor and the setters *)

Lemma configured_unassembled (b : CityBus) : configured b → unassembled b.
Proof.
  induction 1 as [|system|Cd area air_density b _ (Hv & Hp & Hdrag)
                 |h b _ (Hv & Hp & Hdrag)|h b _ (Hv & Hp & Hdrag)
                 |val b _ (Hv & Hp & Hdrag)];
    unfold unassembled; cbn;
    (split; [first [assumption|reflexivity]|]);
    (split; [first [assumption|reflexivity]|]);
    first [exact Hdrag | intros Hflag; try discriminate Hflag; repeat split; eauto].
Qed.

Lemma unassembled_prepared_chassis (b : CityBus) :
  unassembled b → is_Some (prepared_chassis b).
Proof.
  intros (_ & _ & Hdrag). unfold prepared_chassis, apply_drag.
  destruct (m_apply_drag b); [|eauto].
  destruct (Hdrag eq_refl) as ([Cd ->] & [area ->] & [rho ->]). cbn. eauto.
Qed.

(** *** [Initialize] in closed form *)

Lemma Initialize_no_chassis (b : CityBus) :
  prepared_chassis b = None → Initialize b = None.
Proof.
  unfold prepared_chassis, Initialize. cbv zeta. intros ->. reflexivity.
Qed.

Lemma Initialize_with_tire_case (b : CityBus) (c0 : Chassis) :
  has_tire_case (m_tireType b) = true →
  prepared_chassis b = Some c0 →
  Initialize b =
    Some (with_subsystems
            (mkVehicle (fst (create_powertrain c0))
               [ mkAxle [mkWheel (Some (made_tire b "FL"));
                         mkWheel (Some (made_tire b "FR"))];
                 mkAxle [mkWheel (Some (made_tire b "RL"));
                         mkWheel (Some (made_tire b "RR"))] ])
            (snd (create_powertrain c0))
            (Some (front_left_mass b)) b).
Proof.
  unfold prepared_chassis, Initialize. cbv zeta. intros Hcase ->.
  cbn [mbind option_bind].
  destruct (create_powertrain c0) as [c p]. cbn [fst snd].
  unfold create_tires, apply_tire_step, step_wheel, made_tire, finish_tire,
    front_left_mass.
  destruct (gt (m_tire_step_size b) 0%float);
    destruct (m_tireType b); try discriminate Hcase; reflexivity.
Qed.

Lemma Initialize_without_tire_case (b : CityBus) (c0 : Chassis) :
  has_tire_case (m_tireType b) = false →
  prepared_chassis b = Some c0 →
  Initialize b =
    if gt (m_tire_step_size b) 0%float
    then None
    else Some (with_subsystems
                 (mkVehicle (fst (create_powertrain c0)) bare_axles)
                 (snd (create_powertrain c0)) (m_tire_mass b) b).
Proof.
  unfold prepared_chassis, Initialize. cbv zeta. intros Hcase ->.
  cbn [mbind option_bind].
  destruct (create_powertrain c0) as [c p]. cbn [fst snd].
  unfold create_tires, apply_tire_step, step_wheel.
  destruct (gt (m_tire_step_size b) 0%float);
    destruct (m_tireType b); try discriminate Hcase; reflexivity.
Qed.

Lemma same_configuration_with_subsystems v p m (b : CityBus) :
  same_configuration b (with_subsystems v p m b).
Proof. unfold same_configuration. cbn. repeat split. Qed.

Lemma same_configuration_trans (b1 b2 b3 : CityBus) :
  same_configuration b1 b2 → same_configuration b2 b3 → same_configuration b1 b3.
Proof.
  unfold same_configuration. intros H12 H23.
  repeat match goal with H : _ ∧ _ |- _ => destruct H end.
  repeat split; congruence.
Qed.

(** *** The loops over the tires *)

Lemma for_each_tire_wheels (method : Tire → Tire) (ws : list ChWheel) :
  Forall (λ w, is_Some (m_tire w)) ws →
  ∃ ws', mapM (λ wheel, tire ← m_tire wheel; Some (mkWheel (Some (method tire)))) ws
         = Some ws' ∧
         m_tire <$> ws' = (λ w, method <$> m_tire w) <$> ws.
Proof.
  induction 1 as [|w ws [t Ht] _ (ws' & Hws' & Htires)].
  - exists []. split; reflexivity.
  - exists (mkWheel (Some (method t)) :: ws'). split.
    + rewrite mapM_cons_unfold, Hws', Ht. reflexivity.
    + cbn [fmap list_fmap]. cbn [fmap list_fmap] in Htires.
      rewrite Htires, Ht. reflexivity.
Qed.

Lemma for_each_tire_on (method : Tire → Tire) (v : Vehicle) :
  Forall is_Some (tires v) →
  ∃ v', for_each_tire method v = Some v' ∧ body v' = body v ∧
        tires v' = (λ tire : option Tire, method <$> tire) <$> tires v.
Proof.
  destruct v as [c axles]. unfold tires, for_each_tire.
  cbn [m_axles body]. intros Hall.
  assert (Haxles : ∃ axles',
            mapM (λ axle,
               mkAxle <$> mapM (λ wheel, tire ← m_tire wheel;
                                          Some (mkWheel (Some (method tire))))
                            (m_wheels axle)) axles
            = Some axles' ∧
            (a ← axles'; m_tire <$> m_wheels a) =
            (λ tire : option Tire, method <$> tire)
              <$> (a ← axles; m_tire <$> m_wheels a)).
  { induction axles as [|[ws] axles IH].
    - exists []. split; reflexivity.
    - cbn [mbind list_bind m_wheels] in Hall.
      apply Forall_app in Hall as [Hws Hrest].
      destruct (IH Hrest) as (axles' & Haxles' & Htires').
      destruct (for_each_tire_wheels method ws) as (ws' & Hws' & Htires).
      { rewrite Forall_fmap in Hws. exact Hws. }
      exists (mkAxle ws' :: axles'). split.
      + rewrite mapM_cons_unfold. cbn [m_wheels].
        rewrite Hws', Haxles'. reflexivity.
      + cbn [mbind list_bind m_wheels]. rewrite fmap_app, Htires', Htires.
        f_equal. rewrite <- list_fmap_compose. reflexivity. }
  destruct Haxles as (axles' & Haxles' & Htires').
  exists (mkVehicle c axles'). rewrite Haxles'. repeat split. exact Htires'.
Qed.

Lemma for_each_tire_bare (method : Tire → Tire) (c : Chassis) :
  for_each_tire method (mkVehicle c bare_axles) = None.
Proof. reflexivity. Qed.

(** *** Calls on the assembly *)

Lemma call_frame (c : Call) (b b' : CityBus) :
  call c b = Some b' →
  same_configuration b b' ∧ m_tire_mass b' = m_tire_mass b ∧ assembled b'.
Proof.
  destruct c as [time steering braking throttle terrain|step]; cbn [call];
    [unfold Synchronize|unfold Advance];
    destruct (m_powertrain b) as [p|]; try discriminate;
    destruct (m_vehicle b) as [v|]; try discriminate;
    cbn; intros [= <-];
    (split; [apply same_configuration_with_subsystems|]);
    (split; [reflexivity|apply with_subsystems_assembled]).
Qed.

Lemma same_configuration_refl (b : CityBus) : same_configuration b b.
Proof. unfold same_configuration. repeat split. Qed.

Lemma run_frame (cs : list Call) (b b' : CityBus) :
  run cs b = Some b' →
  same_configuration b b' ∧ m_tire_mass b' = m_tire_mass b ∧
  (cs ≠ [] → assembled b').
Proof.
  revert b. induction cs as [|c cs IH]; intros b Hrun.
  - cbn in Hrun. injection Hrun as <-.
    split; [apply same_configuration_refl|]. split; [reflexivity|]. congruence.
  - cbn [run] in Hrun.
    destruct (call c b) as [b1|] eqn:Hcall; [|discriminate].
    cbn [mbind option_bind] in Hrun.
    destruct (call_frame c b b1 Hcall) as (Hconf1 & Hmass1 & Hasm1).
    destruct (IH b1 Hrun) as (Hconf & Hmass & Hasm).
    split; [exact (same_configuration_trans _ _ _ Hconf1 Hconf)|].
    split; [congruence|].
    intros _. destruct cs as [|c' cs].
    + cbn in Hrun. injection Hrun as <-. exact Hasm1.
    + apply Hasm. discriminate.
Qed.

Lemma Initialize_Some_prepared (b b' : CityBus) :
  Initialize b = Some b' → ∃ c0, prepared_chassis b = Some c0.
Proof.
  intros Hinit. destruct (prepared_chassis b) as [c0|] eqn:Hc0; [eauto|].
  rewrite (Initialize_no_chassis b Hc0) in Hinit. discriminate.
Qed.

(** *** What [Initialize] builds *)

(** For the tire models RIGID, RIGID_MESH and TMEASY an [Initialize] that
    completes leaves a tire on each of the four wheels, each on the wheel of
    its name, all four made by the constructor of the model and initialized,
    and with the tire step set when that is above zero. [m_tire_mass] is the
    mass the front left tire reported before the step was set, and the total
    mass is the vehicle mass plus four times that. *)
Theorem Initialize_four_tires (b b' : CityBus) :
  has_tire_case (m_tireType b) = true →
  Initialize b = Some b' →
  ∃ v,
    m_vehicle b' = Some v ∧
    GetTire 0 LEFT v = Some (Some (made_tire b "FL")) ∧
    GetTire 0 RIGHT v = Some (Some (made_tire b "FR")) ∧
    GetTire 1 LEFT v = Some (Some (made_tire b "RL")) ∧
    GetTire 1 RIGHT v = Some (Some (made_tire b "RR")) ∧
    length (tires v) = 4%nat ∧
    m_tire_mass b' = Some (front_left_mass b) ∧
    GetTotalMass b' = Some (GetVehicleMass v + 4 * front_left_mass b)%float.
Proof.
  intros Hcase Hinit.
  destruct (Initialize_Some_prepared b b' Hinit) as [c0 Hc0].
  rewrite (Initialize_with_tire_case b c0 Hcase Hc0) in Hinit.
  injection Hinit as <-.
  eexists. repeat split.
Qed.

(** On an assembly that comes from a constructor and the setters,
    [Initialize] completes exactly when the tire model has a [case] or the
    tire step is not above zero: with a tire model left to the [default] and
    a positive tire step the loop over the wheels calls [SetStepsize] through
    the null tire pointer of the first wheel. When [Initialize] completes,
    the vehicle and the powertrain exist and the configuration is as it
    was. *)
Theorem Initialize_completes_iff (b : CityBus) :
  configured b →
  (is_Some (Initialize b)
     ↔ has_tire_case (m_tireType b) = true ∨ gt (m_tire_step_size b) 0%float = false) ∧
  (∀ b', Initialize b = Some b' → assembled b' ∧ same_configuration b b').
Proof.
  intros Hconf.
  destruct (unassembled_prepared_chassis b (configured_unassembled b Hconf))
    as [c0 Hc0].
  destruct (has_tire_case (m_tireType b)) eqn:Hcase.
  - rewrite (Initialize_with_tire_case b c0 Hcase Hc0). split.
    + split; [intros _; left; reflexivity|intros _; eauto].
    + intros b' [= <-]. split.
      * apply with_subsystems_assembled.
      * apply same_configuration_with_subsystems.
  - rewrite (Initialize_without_tire_case b c0 Hcase Hc0).
    destruct (gt (m_tire_step_size b) 0%float); split.
    + split; [intros [x Hx]; discriminate|intros [Hf|Hf]; discriminate].
    + intros b' Hb'. discriminate.
    + split; [intros _; right; reflexivity|intros _; eauto].
    + intros b' [= <-]. split.
      * apply with_subsystems_assembled.
      * apply same_configuration_with_subsystems.
Qed.

(** An assembly that comes from a constructor and the setters has neither
    vehicle nor powertrain: before [Initialize], [GetTotalMass],
    [SetTireVisualizationType] and every sequence of [Synchronize] and
    [Advance] calls that is not empty go through a null pointer. *)
Theorem configured_not_usable (b : CityBus) :
  configured b →
  GetTotalMass b = None ∧
  (∀ vis, SetTireVisualizationType vis b = None) ∧
  (∀ c cs, run (c :: cs) b = None).
Proof.
  intros Hconf.
  destruct (configured_unassembled b Hconf) as (Hv & Hp & _).
  split; [unfold GetTotalMass; rewrite Hv; reflexivity|].
  split; [intros vis; unfold SetTireVisualizationType; rewrite Hv; reflexivity|].
  intros c cs. cbn [run].
  destruct c as [time steering braking throttle terrain|step]; cbn [call];
    [unfold Synchronize|unfold Advance]; rewrite Hp; reflexivity.
Qed.


(** [Initialize] hands the drag parameters to the chassis exactly when
    [SetAerodynamicDrag] was called, after the vehicle step is set and
    before the powertrain is initialized on the chassis; of two calls of
    [SetAerodynamicDrag] the later one counts. *)
Theorem Initialize_aerodynamic_drag
    (b b' : CityBus) (Cd area air_density Cd' area' air_density' : double) :
  Initialize (SetAerodynamicDrag Cd area air_density b) = Some b' →
  (body <$> m_vehicle b')
  = Some (fst (create_powertrain
                 (Chassis_SetAerodynamicDrag Cd area air_density
                    (apply_vehicle_step b (create_vehicle b))))) ∧
  (m_apply_drag b = false →
   prepared_chassis b = Some (apply_vehicle_step b (create_vehicle b))) ∧
  SetAerodynamicDrag Cd area air_density
    (SetAerodynamicDrag Cd' area' air_density' b)
  = SetAerodynamicDrag Cd area air_density b.
Proof.
  intros Hinit. split; [|split].
  - set (bd := SetAerodynamicDrag Cd area air_density b) in *.
    assert (Hc0 : prepared_chassis bd
                  = Some (Chassis_SetAerodynamicDrag Cd area air_density
                            (apply_vehicle_step b (create_vehicle b))))
      by reflexivity.
    destruct (has_tire_case (m_tireType bd)) eqn:Hcase;
      [rewrite (Initialize_with_tire_case bd _ Hcase Hc0) in Hinit
      |rewrite (Initialize_without_tire_case bd _ Hcase Hc0) in Hinit;
       destruct (gt (m_tire_step_size bd) 0%float); [discriminate|]];
      injection Hinit as <-; reflexivity.
  - intros Hoff. unfold prepared_chassis, apply_drag. rewrite Hoff. reflexivity.
  - reflexivity.
Qed.

(** *** Calls after [Initialize] *)

(** [Synchronize] and [Advance] change the vehicle and the powertrain and
    nothing else: after any sequence of calls that completes, every
    configuration member and [m_tire_mass] are as before, so that the part
    [4 * m_tire_mass] of the total mass is fixed once [Initialize] is
    through. *)
Theorem run_changes_subsystems_only (cs : list Call) (b b' : CityBus) :
  run cs b = Some b' →
  same_configuration b b' ∧
  m_tire_mass b' = m_tire_mass b ∧
  (∀ tire_mass, cs ≠ [] → m_tire_mass b = Some tire_mass →
     ∃ v', m_vehicle b' = Some v' ∧
           GetTotalMass b' = Some (GetVehicleMass v' + 4 * tire_mass)%float).
Proof.
  intros Hrun. destruct (run_frame cs b b' Hrun) as (Hconf & Hmass & Hasm).
  split; [exact Hconf|]. split; [exact Hmass|].
  intros tire_mass Hcs Hm. destruct (Hasm Hcs) as [[v' Hv'] _].
  exists v'. split; [exact Hv'|].
  apply GetTotalMass_eq; [exact Hv'|]. rewrite Hmass. exact Hm.
Qed.

(** After an [Initialize] that completed, [SetTireVisualizationType]
    completes exactly when the tire model has a [case]: otherwise the wheels
    have no tires and the method is called through a null pointer. When it
    completes, it has set the mode on the tire of every wheel and changed
    nothing else. *)
Theorem SetTireVisualizationType_after_Initialize
    (vis : VisualizationType) (b b' : CityBus) :
  Initialize b = Some b' →
  (is_Some (SetTireVisualizationType vis b')
     ↔ has_tire_case (m_tireType b) = true) ∧
  (∀ b'', SetTireVisualizationType vis b' = Some b'' →
     ∃ v v'',
       m_vehicle b' = Some v ∧ m_vehicle b'' = Some v'' ∧
       body v'' = body v ∧
       tires v'' = (λ tire : option Tire, Tire_SetVisualizationType vis <$> tire)
                     <$> tires v ∧
       m_powertrain b'' = m_powertrain b' ∧
       m_tire_mass b'' = m_tire_mass b' ∧
       same_configuration b' b'').
Proof.
  intros Hinit.
  destruct (Initialize_Some_prepared b b' Hinit) as [c0 Hc0].
  destruct (has_tire_case (m_tireType b)) eqn:Hcase.
  - rewrite (Initialize_with_tire_case b c0 Hcase Hc0) in Hinit.
    injection Hinit as <-. split.
    + split; [reflexivity|]. intros _. cbn. eauto.
    + intros b'' Hvis. cbn in Hvis. injection Hvis as <-.
      eexists _, _. unfold same_configuration. cbn. repeat split.
  - rewrite (Initialize_without_tire_case b c0 Hcase Hc0) in Hinit.
    destruct (gt (m_tire_step_size b) 0%float); [discriminate|].
    injection Hinit as <-. split.
    + split; [|discriminate]. intros [x Hx]. cbn in Hx. discriminate.
    + intros b'' Hvis. cbn in Hvis. discriminate.
Qed.

End MoreFacts.

(** *** The small assembly again *)

#[local] Existing Instance toy_parts.
#[local] Existing Instance toy.
#[local] Existing Instance toy_visualization.

#[local] Open Scope float_scope.

Example Initialize_fiala_with_step : Initialize fiala_with_step = None.
Proof. reflexivity. Qed.

Lemma Initialize_four_tires_witness :
  has_tire_case (m_tireType (@new_CityBus toy_parts)) = true ∧
  Initialize new_CityBus = Some ready_bus ∧
  ∃ v, m_vehicle ready_bus = Some v ∧
       GetTire 0 LEFT v = Some (Some (made_tire new_CityBus "FL")) ∧
       GetTotalMass ready_bus
       = Some (GetVehicleMass v + 4 * front_left_mass new_CityBus).
Proof.
  split; [reflexivity|]. split; [reflexivity|].
  destruct (@Initialize_four_tires toy_parts toy new_CityBus ready_bus eq_refl eq_refl)
    as (v & Hv & HFL & _ & _ & _ & _ & _ & Hmass).
  exists v. split; [exact Hv|]. split; [exact HFL|exact Hmass].
Defined.

Lemma Initialize_completes_iff_witness :
  configured fiala_with_step ∧
  (is_Some (Initialize fiala_with_step)
     ↔ has_tire_case (m_tireType fiala_with_step) = true
       ∨ gt (m_tire_step_size fiala_with_step) 0 = false).
Proof.
  assert (Hconf : configured fiala_with_step).
  { apply configured_tire_step, configured_tire_type, configured_new. }
  split; [exact Hconf|].
  exact (proj1 (@Initialize_completes_iff toy_parts toy fiala_with_step Hconf)).
Defined.

Lemma configured_not_usable_witness :
  configured fiala_with_step ∧
  GetTotalMass fiala_with_step = None ∧
  run [CallAdvance 0.5] fiala_with_step = None.
Proof.
  assert (Hconf : configured fiala_with_step).
  { apply configured_tire_step, configured_tire_type, configured_new. }
  destruct (@configured_not_usable toy_parts toy toy_visualization
              fiala_with_step Hconf) as (Hmass & _ & Hrun).
  split; [exact Hconf|]. split; [exact Hmass|]. apply Hrun.
Defined.


Lemma Initialize_aerodynamic_drag_witness :
  (∃ b', Initialize (SetAerodynamicDrag 0.5 8 1.25 new_CityBus) = Some b' ∧
         (c_drag ∘ body <$> m_vehicle b') = Some true) ∧
  m_apply_drag (@new_CityBus toy_parts) = false ∧
  prepared_chassis new_CityBus
  = Some (apply_vehicle_step new_CityBus (create_vehicle new_CityBus)).
Proof.
  split; [eexists; split; reflexivity|]. split; [reflexivity|].
  destruct (@Initialize_aerodynamic_drag toy_parts toy new_CityBus _
              0.5 8 1.25 0.5 8 1.25 eq_refl) as (_ & Hoff & _).
  exact (Hoff eq_refl).
Defined.

Lemma run_changes_subsystems_only_witness :
  ∃ b', run one_tick ready_bus = Some b' ∧
        m_tire_mass b' = m_tire_mass ready_bus ∧
        same_configuration ready_bus b'.
Proof.
  eexists. split; [reflexivity|].
  destruct (@run_changes_subsystems_only toy_parts toy one_tick ready_bus _ eq_refl)
    as (Hconf & Hmass & _).
  split; [exact Hmass|exact Hconf].
Defined.

Lemma SetTireVisualizationType_after_Initialize_witness :
  Initialize new_CityBus = Some ready_bus ∧
  (is_Some (SetTireVisualizationType "MESH"%string ready_bus)
     ↔ has_tire_case (m_tireType (@new_CityBus toy_parts)) = true) ∧
  (t_name <$> (v ← (b ← SetTireVisualizationType "MESH"%string ready_bus; m_vehicle b);
               tire ← GetTire 0 LEFT v; tire))
  = Some "FL/MESH"%string.
Proof.
  split; [reflexivity|].
  split; [|reflexivity].
  exact (proj1 (@SetTireVisualizationType_after_Initialize toy_parts toy
                  toy_visualization "MESH"%string new_CityBus ready_bus eq_refl)).
Defined.


End BusMoreFacts.

(** ** The highway demo: vehicle and driver of a rank *)

Module DemoFacts.

Import Bus Highway HighwayFacts Demo.

#[local] Set Warnings "-inexact-float".

Section SetupFacts.

Variable CH_C_DEG_TO_RAD : double.
Variable Q_from_AngZ : double → ChQuaternion.

#[local] Abbreviation InitializeVehicle :=
  (Demo.InitializeVehicle CH_C_DEG_TO_RAD Q_from_AngZ).

(** Whatever the rank, [InitializeVehicle] puts a sedan on the lane at
    2.8 from the middle and a city bus on the lane at 6.4, both at height
    0.2. The city buses are rank 2 and, from rank 3 on, the odd ranks. *)
Theorem InitializeVehicle_model_and_lane (rank : Z) :
  let setup := InitializeVehicle rank in
  ((filename setup = "vehicle/Sedan.json"%string ∧
    fabs (vx (init_loc setup)) = 2.8%float) ∨
   (filename setup = "vehicle/CityBus.json"%string ∧
    fabs (vx (init_loc setup)) = 6.4%float)) ∧
  vz (init_loc setup) = 0.2%float ∧
  (filename setup = "vehicle/CityBus.json"%string
     ↔ rank = 2%Z ∨ (rank ≠ 0%Z ∧ rank ≠ 1%Z ∧ Z.rem rank 2 ≠ 0%Z)).
Proof.
  assert (Hdefault : ∀ r : Z, r ≠ 0%Z → r ≠ 1%Z → r ≠ 2%Z →
    Demo.InitializeVehicle CH_C_DEG_TO_RAD Q_from_AngZ r =
      if (Z.rem r 2 =? 0)%Z
      then mkVehicleSetup "vehicle/Sedan.json"
             (mkVector (-2.8) (70.0 - (double_of_int r - 4.0) * 30) 0.2)%float
             (Q_from_AngZ (-90 * CH_C_DEG_TO_RAD)%float)
      else mkVehicleSetup "vehicle/CityBus.json"
             (mkVector (-6.4) (70.0 - (double_of_int r - 4.0) * 30) 0.2)%float
             (Q_from_AngZ (-90 * CH_C_DEG_TO_RAD)%float)).
  { intros r H0 H1 H2.
    destruct r as [|[p|[p|p|]|]|p]; try reflexivity; congruence. }
  intros setup. subst setup.
  destruct (Z.eq_dec rank 0%Z) as [->|H0].
  { cbn. split; [left; split; reflexivity|]. split; [reflexivity|].
    split; [discriminate|]. intros [Heq|(Hne & _)]; [discriminate|congruence]. }
  destruct (Z.eq_dec rank 1%Z) as [->|H1].
  { cbn. split; [left; split; reflexivity|]. split; [reflexivity|].
    split; [discriminate|]. intros [Heq|(_ & Hne & _)]; [discriminate|congruence]. }
  destruct (Z.eq_dec rank 2%Z) as [->|H2].
  { cbn. split; [right; split; reflexivity|]. split; [reflexivity|].
    split; [intros _; left; reflexivity|reflexivity]. }
  rewrite (Hdefault rank H0 H1 H2).
  destruct (Z.eqb_spec (Z.rem rank 2) 0%Z) as [Heven|Hodd]; cbn.
  - split; [left; split; reflexivity|]. split; [reflexivity|].
    split; [discriminate|]. intros [Heq|(_ & _ & Hne)]; congruence.
  - split; [right; split; reflexivity|]. split; [reflexivity|].
    split; [intros _; right; repeat split; assumption|reflexivity].
Qed.

(** The vehicle of a rank is turned by 90 degrees about the vertical for
    the ranks 0 to 2 and by -90 degrees for every rank from 3 on, whereas
    its path leads 140 in the direction of +y for the ranks up to 3 and in
    the direction of -y from rank 4 on. Rank 3 alone has the turn of the
    higher ranks with the path of the lower ones. *)
Theorem heading_and_path_of_rank (rank : Z) (loc : ChVector) :
  (0 ≤ rank)%Z →
  ((rank ≤ 2)%Z →
     init_rot (InitializeVehicle rank) = Q_from_AngZ (90 * CH_C_DEG_TO_RAD)%float ∧
     curve_pts rank loc = [loc; vadd loc (mkVector 0 140 0)%float]) ∧
  (rank = 3%Z →
     init_rot (InitializeVehicle rank) = Q_from_AngZ (-90 * CH_C_DEG_TO_RAD)%float ∧
     curve_pts rank loc = [loc; vadd loc (mkVector 0 140 0)%float]) ∧
  ((4 ≤ rank)%Z →
     init_rot (InitializeVehicle rank) = Q_from_AngZ (-90 * CH_C_DEG_TO_RAD)%float ∧
     curve_pts rank loc = [loc; vsub loc (mkVector 0 140 0)%float]).
Proof.
  intros Hrank. split; [|split].
  - intros Hlow.
    assert (Hcases : rank = 0%Z ∨ rank = 1%Z ∨ rank = 2%Z) by lia.
    destruct Hcases as [->|[->| ->]]; split; reflexivity.
  - intros ->. split; reflexivity.
  - intros Hhigh. split.
    + destruct rank as [|[p|[p|p|]|]|p]; try lia; cbn;
        try destruct (Z.rem _ 2 =? 0)%Z; reflexivity.
    + unfold curve_pts.
      destruct (Z.ltb_spec rank 4%Z) as [Hlt|_]; [lia|reflexivity].
Qed.

End SetupFacts.

(** Every driver gets paths of exactly two control points that are not
    closed, the first of them starting at the position of its vehicle. Rank
    0 alone gets a driver of the class with several paths, and two paths, so
    that the path number 1 that the loop switches to exists; every other
    rank gets one path. *)
Theorem make_driver_paths (rank : Z) (loc : ChVector) :
  let driver := make_driver rank loc in
  Forall (λ p, length (fst p) = 2%nat ∧ snd p = false) (driver_paths driver) ∧
  (∃ second rest, driver_paths driver = ([loc; second], false) :: rest) ∧
  (driver_class driver = ChMulPathFollowerACCDriver ↔ rank = 0%Z) ∧
  ((1 < length (driver_paths driver))%nat ↔ rank = 0%Z) ∧
  (1 ≤ length (driver_paths driver))%nat.
Proof.
  intros driver. subst driver. unfold make_driver, curve_pts.
  destruct (Z.eqb_spec rank 0%Z) as [->|Hne]; cbn.
  - repeat split; eauto; try lia; repeat constructor.
  - destruct (rank <? 4)%Z; cbn;
      (split; [repeat constructor|]);
      (split; [eauto|]);
      (split; [split; [discriminate|contradiction]|]);
      (split; [split; [lia|contradiction]|lia]).
Qed.

Section LoopFacts.

Context {World : Type}.

Variable rank : Z.
Variable IsOk : World → bool.
Variable mpi_Advance : World → World.
Variable mpi_Synchronize : World → World.
Variable mpi_Update : World → World.
Variable GetChTime : World → double.

#[local] Abbreviation switch_due := (Highway.switch_due rank GetChTime).
#[local] Abbreviation loop_body :=
  (Highway.loop_body rank mpi_Advance mpi_Synchronize mpi_Update GetChTime).
#[local] Abbreviation simulation_loop :=
  (Highway.simulation_loop rank IsOk mpi_Advance mpi_Synchronize mpi_Update GetChTime).
#[local] Abbreviation loop_body_cast :=
  (Demo.loop_body_cast rank mpi_Advance mpi_Synchronize mpi_Update GetChTime).
#[local] Abbreviation simulation_loop_cast :=
  (Demo.simulation_loop_cast rank IsOk mpi_Advance mpi_Synchronize mpi_Update
     GetChTime).

Lemma switch_due_rank (w : World) : switch_due w = true → rank = 0%Z.
Proof.
  unfold Highway.switch_due. intros Hdue.
  apply andb_true_iff in Hdue as [Hrank _]. apply Z.eqb_eq, Hrank.
Qed.

Lemma loop_body_cast_make_driver
    (driver_changePath : Z → World → World) (loc : ChVector) (w : World) :
  loop_body_cast driver_changePath (make_driver rank loc) w
  = Some (loop_body driver_changePath w).
Proof.
  unfold Demo.loop_body_cast, Highway.loop_body.
  destruct (switch_due (mpi_Synchronize (mpi_Advance w))) eqn:Hdue; [|reflexivity].
  rewrite (switch_due_rank _ Hdue). reflexivity.
Qed.

Lemma loop_body_other_rank
    (driver_changePath : Z → World → World) (w : World) :
  rank ≠ 0%Z →
  loop_body driver_changePath w
  = (mpi_Update (mpi_Synchronize (mpi_Advance w)),
     [EvAdvance; EvSynchronize; EvUpdate]).
Proof.
  intros Hrank. unfold Highway.loop_body.
  destruct (switch_due (mpi_Synchronize (mpi_Advance w))) eqn:Hdue; [|reflexivity].
  destruct (Hrank (switch_due_rank _ Hdue)).
Qed.

(** With the driver that [main] creates for the rank, the pointer cast in
    the loop never gives a null pointer, whatever the manager does and
    however long the loop runs: the loop with the cast looked at does what
    the loop without it does. With a driver of the single-path class a
    switch that falls due would call [changePath] through a null pointer. *)
Theorem simulation_loop_cast_never_null
    (driver_changePath : Z → World → World) (loc : ChVector)
    (fuel : nat) (w : World) (driver : DriverSetup) :
  simulation_loop_cast driver_changePath (make_driver rank loc) fuel w
  = Some (simulation_loop driver_changePath fuel w) ∧
  (driver_class driver = ChPathFollowerACCDriver →
   switch_due (mpi_Synchronize (mpi_Advance w)) = true →
   loop_body_cast driver_changePath driver w = None).
Proof.
  split.
  - revert w. induction fuel as [|fuel IH]; intros w; [reflexivity|].
    cbn [Demo.simulation_loop_cast Highway.simulation_loop].
    destruct (IsOk w); [|reflexivity].
    rewrite loop_body_cast_make_driver. cbn [mbind option_bind].
    destruct (loop_body driver_changePath w) as [w1 events].
    rewrite IH. cbn [mbind option_bind].
    destruct (simulation_loop driver_changePath fuel w1) as [[w2 later] stopped].
    reflexivity.
  - intros Hclass Hdue. unfold Demo.loop_body_cast.
    rewrite Hdue. unfold cast_to_ChMulPathFollowerACCDriver. rewrite Hclass.
    reflexivity.
Qed.

(** On every rank but 0 the loop never calls [changePath]: its run is the
    same whatever [changePath] would do, and no switch is among its
    events. *)
Theorem other_ranks_never_switch
    (changePath changePath' : Z → World → World) (fuel : nat) (w : World) :
  rank ≠ 0%Z →
  simulation_loop changePath fuel w = simulation_loop changePath' fuel w ∧
  Forall (λ e, ∀ path, e ≠ EvChangePath path)
    (snd (fst (simulation_loop changePath fuel w))).
Proof.
  intros Hrank. revert w. induction fuel as [|fuel IH]; intros w.
  - split; [reflexivity|constructor].
  - cbn [Highway.simulation_loop].
    destruct (IsOk w); [|split; [reflexivity|repeat constructor; discriminate]].
    rewrite !loop_body_other_rank by exact Hrank.
    destruct (IH (mpi_Update (mpi_Synchronize (mpi_Advance w)))) as [Hsame Hnone].
    rewrite <- Hsame.
    destruct (simulation_loop changePath fuel
                (mpi_Update (mpi_Synchronize (mpi_Advance w))))
      as [[w2 later] stopped].
    split; [reflexivity|]. cbn [fst snd] in *.
    repeat (constructor; [discriminate|]). exact Hnone.
Qed.

End LoopFacts.

#[local] Open Scope float_scope.

(** The ranks 4 and 5 start 30 apart on their lanes. *)
Example InitializeVehicle_ranks_4_5 (deg : double) (Q : double → ChQuaternion) :
  init_loc (Demo.InitializeVehicle deg Q 4) = mkVector (-2.8) 70 0.2 ∧
  init_loc (Demo.InitializeVehicle deg Q 5) = mkVector (-6.4) 40 0.2.
Proof. split; reflexivity. Qed.

Lemma heading_and_path_of_rank_witness :
  (0 ≤ 3)%Z ∧
  init_rot (Demo.InitializeVehicle 0.5 (λ a, mkQuaternion a 0 0 0) 3)
  = mkQuaternion (-90 * 0.5) 0 0 0 ∧
  curve_pts 3 (mkVector 0 0 0) = [mkVector 0 0 0; vadd (mkVector 0 0 0) (mkVector 0 140 0)].
Proof.
  assert (Hrank : (0 ≤ 3)%Z) by lia.
  destruct (heading_and_path_of_rank 0.5 (λ a, mkQuaternion a 0 0 0) 3
              (mkVector 0 0 0) Hrank) as (_ & Hthree & _).
  split; [exact Hrank|]. exact (Hthree eq_refl).
Defined.

Lemma simulation_loop_cast_never_null_witness :
  driver_class (make_driver 1 (mkVector 0 0 0)) = ChPathFollowerACCDriver ∧
  Highway.switch_due 0 clock (toy_Synchronize (toy_Advance (toy_Advance toy_start)))
  = true ∧
  Demo.loop_body_cast 0 toy_Advance toy_Synchronize toy_Update clock toy_changePath
    (make_driver 1 (mkVector 0 0 0)) (toy_Advance toy_start) = None.
Proof.
  split; [reflexivity|]. split; [reflexivity|].
  destruct (simulation_loop_cast_never_null 0 toy_IsOk toy_Advance toy_Synchronize
              toy_Update clock toy_changePath (mkVector 0 0 0) 5
              (toy_Advance toy_start) (make_driver 1 (mkVector 0 0 0)))
    as [_ Hnull].
  exact (Hnull eq_refl eq_refl).
Defined.

Lemma other_ranks_never_switch_witness :
  1%Z ≠ 0%Z ∧
  Highway.simulation_loop 1 toy_IsOk toy_Advance toy_Synchronize toy_Update clock
    toy_changePath 5 toy_start
  = Highway.simulation_loop 1 toy_IsOk toy_Advance toy_Synchronize toy_Update clock
      (λ _ w, w) 5 toy_start.
Proof.
  assert (Hrank : 1%Z ≠ 0%Z) by discriminate.
  split; [exact Hrank|].
  exact (proj1 (other_ranks_never_switch 1 toy_IsOk toy_Advance toy_Synchronize
                  toy_Update clock toy_changePath (λ _ w, w) 5 toy_start Hrank)).
Defined.

End DemoFacts.
